(** * kiwi-crawler: a shallow embedding of the crawler core

    The development follows the Python sources:
    - [utils.py]   : the date window ([get_next_month], [get_date_range]);
    - [flight.py]  : the [Flight] record, its derived dates and [__str__];
    - [configs.py] : the constants and the two URL templates;
    - [main.py]    : [Crawler.send_request], [search_flight], [check_flight],
                     [write_to_file] and one iteration of each periodic loop.

    Python values that come from [json.loads] are modelled by the type [json];
    exceptions by the type [exn]; the crawler object, the objects it points to
    and the outside world (network, clock of sleeps, output file) by the record
    [world], threaded through a small state-and-exception monad. *)

From stdpp Require Import numbers list strings pretty.

Open Scope string_scope.
Open Scope list_scope.
Open Scope Z_scope.

Set Warnings "-register-all".

(** ** Exceptions and outcomes *)

(** The Python exceptions the modelled code can raise. [OtherError] stands for
    any exception raised by the HTTP layer that is not an
    [aiohttp.ClientError]. *)
Inductive exn : Type :=
  | TypeError
  | KeyError (k : string)
  | ValueError
  | OtherError (name : string).

(** What running a piece of code gives: a value, a raised exception, or
    [Blocked] when the code awaits a response that never arrives. *)
Inductive outcome (A : Type) : Type :=
  | Ok (a : A)
  | Raise (e : exn)
  | Blocked.

Arguments Ok {A} a.
Arguments Raise {A} e.
Arguments Blocked {A}.

Definition obind {A B} (o : outcome A) (k : A -> outcome B) : outcome B :=
  match o with
  | Ok a => k a
  | Raise e => Raise e
  | Blocked => Blocked
  end.

Notation "'get' x <- c ; k" := (obind c (fun x => k))
  (at level 10, x name, c at level 100, k at level 200,
   format "'[v' 'get'  x  <-  c ; '/' k ']'").

(** ** JSON values, as [json.loads] returns them *)

Inductive json : Type :=
  | JNull
  | JBool (b : bool)
  | JNum (n : Z)
  | JStr (s : string)
  | JArr (items : list json)
  | JObj (fields : list (string * json)).

Fixpoint assoc_get {A} (k : string) (l : list (string * A)) : option A :=
  match l with
  | [] => None
  | (k', v) :: rest => if String.eqb k k' then Some v else assoc_get k rest
  end.

(** [x[k]] for a string [k]: only a dict can be subscripted by a string. *)
Definition subscript (x : json) (k : string) : outcome json :=
  match x with
  | JObj fields =>
      match assoc_get k fields with
      | Some v => Ok v
      | None => Raise (KeyError k)
      end
  | _ => Raise TypeError
  end.

(** Truth value of an object in a condition. *)
Definition truthy (x : json) : bool :=
  match x with
  | JNull => false
  | JBool b => b
  | JNum n => negb (n =? 0)
  | JStr s => negb (String.eqb s "")
  | JArr items => match items with [] => false | _ => true end
  | JObj fields => match fields with [] => false | _ => true end
  end.

Fixpoint chars_of (s : string) : list json :=
  match s with
  | EmptyString => []
  | String c rest => JStr (String c EmptyString) :: chars_of rest
  end.

(** [for item in x]: a list gives its items, a dict its keys, a string its
    characters; nothing else is iterable. *)
Definition py_iter (x : json) : outcome (list json) :=
  match x with
  | JArr items => Ok items
  | JObj fields => Ok (map (fun kv => JStr (fst kv)) fields)
  | JStr s => Ok (chars_of s)
  | _ => Raise TypeError
  end.

(** Fields are read with the types the [Flight] docstring declares
    ([str] for the codes and the token, [int] for price and times). A field
    of another type is reported as [TypeError] where it is read; Python
    reports it at the first use that needs the type (the timestamp
    conversion, the join of the key, the comparison of prices). *)
Definition as_str (x : json) : outcome string :=
  match x with JStr s => Ok s | _ => Raise TypeError end.

Definition as_num (x : json) : outcome Z :=
  match x with JNum n => Ok n | _ => Raise TypeError end.

(** ** Calendar dates ([datetime.date], [datetime.datetime]) *)

Record date : Type := mkDate { year : Z; month : Z; day : Z }.

Record datetime : Type :=
  mkDatetime { dt_date : date; hour : Z; minute : Z; second : Z }.

Definition MINYEAR : Z := 1.
Definition MAXYEAR : Z := 9999.

Definition is_leap (y : Z) : bool :=
  (y mod 4 =? 0) && (negb (y mod 100 =? 0) || (y mod 400 =? 0)).

Definition days_in_month (y m : Z) : Z :=
  if m =? 2 then (if is_leap y then 29 else 28)
  else if (m =? 4) || (m =? 6) || (m =? 9) || (m =? 11) then 30
  else 31.

(** The check the [date] constructor performs on its fields. *)
Definition valid_date (y m d : Z) : bool :=
  (MINYEAR <=? y) && (y <=? MAXYEAR) &&
  (1 <=? m) && (m <=? 12) &&
  (1 <=? d) && (d <=? days_in_month y m).

Definition date_new (y m d : Z) : outcome date :=
  if valid_date y m d then Ok (mkDate y m d) else Raise ValueError.

(** [cur_date.replace(year=y, month=m)] builds a new, checked date that keeps
    the day. *)
Definition date_replace (cur : date) (y m : Z) : outcome date :=
  date_new y m (day cur).

(** Zero-padded decimal fields of [strftime] and of [str] on a datetime: two
    digits for a day, a month, an hour, a minute or a second, four for a
    year between [MINYEAR] and [MAXYEAR]. *)
Definition digit (n : Z) : Ascii.ascii :=
  Ascii.ascii_of_nat (48 + Z.to_nat (n mod 10)).

Definition pad2 (n : Z) : string :=
  String (digit (n / 10)) (String (digit n) "").

Definition pad4 (n : Z) : string :=
  String (digit (n / 1000))
    (String (digit (n / 100)) (String (digit (n / 10)) (String (digit n) ""))).

(** [d.strftime("%d/%m/%Y")], the year on four digits: what every platform
    gives from the year 1000 on. *)
Definition strftime_dmy (d : date) : string :=
  pad2 (day d) +:+ "/" +:+ pad2 (month d) +:+ "/" +:+ pad4 (year d).

(** [str(dt)] for a datetime without microseconds. *)
Definition datetime_str (dt : datetime) : string :=
  pad4 (year (dt_date dt)) +:+ "-" +:+ pad2 (month (dt_date dt)) +:+ "-" +:+
  pad2 (day (dt_date dt)) +:+ " " +:+
  pad2 (hour dt) +:+ ":" +:+ pad2 (minute dt) +:+ ":" +:+ pad2 (second dt).

(** Day number (days since 1970-01-01) to a proleptic Gregorian date. *)
Definition civil_from_days (days : Z) : Z * Z * Z :=
  let z := days + 719468 in
  let era := z / 146097 in
  let doe := z - era * 146097 in
  let yoe := (doe - doe / 1460 + doe / 36524 - doe / 146096) / 365 in
  let doy := doe - (365 * yoe + yoe / 4 - yoe / 100) in
  let mp := (5 * doy + 2) / 153 in
  let d := doy - (153 * mp + 2) / 5 + 1 in
  let m := if mp <? 10 then mp + 3 else mp - 9 in
  let y := yoe + era * 400 + (if m <=? 2 then 1 else 0) in
  (y, m, d).

(** ** utils.py *)

(** [get_next_month(cur_date)] *)
Definition get_next_month (cur_date : date) : outcome date :=
  if month cur_date =? 12
  then date_replace cur_date (year cur_date + 1) 1
  else date_replace cur_date (year cur_date) (month cur_date + 1).

(** [get_date_range()], with [date.today()] passed in as [today]. *)
Definition get_date_range (today : date) : outcome (string * string) :=
  get next_month_date <- get_next_month today;
  Ok (strftime_dmy today, strftime_dmy next_month_date).

(** The date the specification describes for the end of the window: the
    first day of the month after [cur_date]'s. *)
Definition first_of_next_month (cur_date : date) : date :=
  if month cur_date =? 12
  then mkDate (year cur_date + 1) 1 1
  else mkDate (year cur_date) (month cur_date + 1) 1.

(** ** configs.py *)

Definition FLIGHT_DIRECTIONS : list (string * string) :=
  [ ("ALA", "TSE"); ("TSE", "ALA"); ("ALA", "MOW"); ("MOW", "ALA");
    ("ALA", "CIT"); ("CIT", "ALA"); ("TSE", "MOW"); ("MOW", "TSE");
    ("TSE", "LED"); ("LED", "TSE") ].

Definition DELAY_TIME : Z := 10.
Definition CHECK_FLIGHT_PERIOD : Z := 900.
Definition MAX_TASKS : nat := 30.

Definition FLIGHTS_POOL_NAME : string := "https://api.skypicker.com".
Definition CHECK_FLIGHTS : string := "https://booking-api.skypicker.com".

(** [SEARCH_FLIGHT_URL.format(fly_from, fly_to, date_from, date_to)] *)
Definition SEARCH_FLIGHT_URL (fly_from fly_to date_from date_to : string)
  : string :=
  FLIGHTS_POOL_NAME +:+ "/flights?" +:+
  "fly_from=" +:+ fly_from +:+ "&" +:+
  "fly_to=" +:+ fly_to +:+ "&" +:+
  "date_from=" +:+ date_from +:+ "&" +:+
  "date_to=" +:+ date_to +:+ "&" +:+
  "sort=date&" +:+ "partner=picky&" +:+ "one_per_date=1".

(** [CHECK_FLIGHT_URL.format(booking_token)] *)
Definition CHECK_FLIGHT_URL (booking_token : string) : string :=
  CHECK_FLIGHTS +:+ "/api/v0.1/check_flights?" +:+
  "v=2&" +:+ "booking_token=" +:+ booking_token +:+ "&" +:+
  "bnum=1&" +:+ "pnum=1&" +:+ "affily=picky_kz".

(** ** flight.py *)

Record Flight : Type := mkFlight {
  is_valid : bool;
  booking_token : string;
  fly_from : string;
  fly_to : string;
  price : Z;
  dep_time : datetime;
  arr_time : datetime
}.

Definition set_is_valid (b : bool) (f : Flight) : Flight :=
  mkFlight b (booking_token f) (fly_from f) (fly_to f) (price f)
           (dep_time f) (arr_time f).

Definition set_price (p : Z) (f : Flight) : Flight :=
  mkFlight (is_valid f) (booking_token f) (fly_from f) (fly_to f) p
           (dep_time f) (arr_time f).

(** [flight.dep_date], [flight.arr_date] *)
Definition dep_date (f : Flight) : string := strftime_dmy (dt_date (dep_time f)).
Definition arr_date (f : Flight) : string := strftime_dmy (dt_date (arr_time f)).

(** [Flight.__str__] *)
Definition Flight_str (f : Flight) : string :=
  "fly_from: " +:+ fly_from f +:+ " | " +:+
  "fly_to: " +:+ fly_to f +:+ " | " +:+
  "dep_time: " +:+ datetime_str (dep_time f) +:+ " | " +:+
  "arr_time: " +:+ datetime_str (arr_time f) +:+ " | " +:+
  "price: " +:+ pretty (price f).

Definition newline : string := String (Ascii.ascii_of_nat 10) "".

(** ** The network, the events and the state of the crawler *)

(** What one HTTP exchange inside [send_request]'s [try] block comes to: a
    decoded body, an [aiohttp.ClientError] (transport error, or the error
    [raise_for_status] raises for an error status), or another exception. *)
Inductive fetch_outcome : Type :=
  | FetchBody (body : json)
  | FetchClientError
  | FetchRaises (e : exn).

(** What the crawler is seen to do. *)
Inductive event : Type :=
  | EvAcquire
  | EvRelease
  | EvRequest (url : string)
  | EvSleep (seconds : Z)
  | EvSearch (fly_from fly_to date_from date_to : string)
  | EvWrite (content : string).

(** The crawler object and its surroundings. [heap] holds the [Flight]
    objects, addressed by position; [flights] is the dict [self.flights],
    in insertion order, from key to the address of the stored object;
    [net] lists the outcomes of the HTTP exchanges still to come, in the
    order the crawler consumes them; [trace] lists the events so far, oldest
    first; [output_file] is the content of the output file. *)
Record world : Type := mkWorld {
  heap : list Flight;
  flights : list (string * nat);
  date_from : string;
  date_to : string;
  net : list fetch_outcome;
  trace : list event;
  output_file : string
}.

Definition with_heap (h : list Flight) (w : world) : world :=
  mkWorld h (flights w) (date_from w) (date_to w) (net w) (trace w)
          (output_file w).

Definition with_flights (d : list (string * nat)) (w : world) : world :=
  mkWorld (heap w) d (date_from w) (date_to w) (net w) (trace w)
          (output_file w).

Definition with_dates (df dt : string) (w : world) : world :=
  mkWorld (heap w) (flights w) df dt (net w) (trace w) (output_file w).

Definition with_net (n : list fetch_outcome) (w : world) : world :=
  mkWorld (heap w) (flights w) (date_from w) (date_to w) n (trace w)
          (output_file w).

Definition with_output_file (s : string) (w : world) : world :=
  mkWorld (heap w) (flights w) (date_from w) (date_to w) (net w) (trace w) s.

Definition log (e : event) (w : world) : world :=
  mkWorld (heap w) (flights w) (date_from w) (date_to w) (net w)
          (trace w ++ [e]) (output_file w).

Definition logs (es : list event) (w : world) : world :=
  mkWorld (heap w) (flights w) (date_from w) (date_to w) (net w)
          (trace w ++ es) (output_file w).

(** The calls of [search_flight], the sleeps and the file writes of a
    trace. *)
Definition searches (tr : list event) : list (string * string * string * string) :=
  omap (fun e => match e with
                 | EvSearch a b c d => Some (a, b, c, d)
                 | _ => None
                 end) tr.

Definition sleeps (tr : list event) : list Z :=
  omap (fun e => match e with EvSleep s => Some s | _ => None end) tr.

Definition writes (tr : list event) : list string :=
  omap (fun e => match e with EvWrite c => Some c | _ => None end) tr.

(** ** The monad: state passing with exceptions *)

Definition M (A : Type) : Type := world -> world * outcome A.

Definition ret {A} (a : A) : M A := fun w => (w, Ok a).

Definition bind {A B} (c : M A) (k : A -> M B) : M B :=
  fun w =>
    match c w with
    | (w1, Ok a) => k a w1
    | (w1, Raise e) => (w1, Raise e)
    | (w1, Blocked) => (w1, Blocked)
    end.

Definition lift {A} (o : outcome A) : M A := fun w => (w, o).

Definition modify (f : world -> world) : M unit := fun w => (f w, Ok tt).

Notation "'run' x <- c ; k" := (bind c (fun x => k))
  (at level 10, x name, c at level 100, k at level 200,
   format "'[v' 'run'  x  <-  c ; '/' k ']'").

Notation "'exec' c ; k" := (bind c (fun _ => k))
  (at level 10, c at level 100, k at level 200,
   format "'[v' 'exec'  c ; '/' k ']'").

(** [await asyncio.sleep(seconds)] *)
Definition sleep (seconds : Z) : M unit := modify (log (EvSleep seconds)).

(** [async with self.semaphore: body]. The slot is given back when the body
    ends, also by an exception; a body that never ends keeps it. *)
Definition with_semaphore {A} (body : M A) : M A :=
  fun w =>
    match body (log EvAcquire w) with
    | (w1, Blocked) => (w1, Blocked)
    | (w1, r) => (log EvRelease w1, r)
    end.

(** [asyncio.gather] over a list of tasks: the tasks are run one after the other, in list
    order (one schedule among those the event loop allows); no task is
    cancelled when another one raises; the first exception raised is what
    [gather] raises. *)
Definition first_failure (r1 r2 : outcome unit) : outcome unit :=
  match r1, r2 with
  | Raise e, _ => Raise e
  | _, Raise e => Raise e
  | Blocked, _ => Blocked
  | Ok _, r => r
  end.

Fixpoint gather (tasks : list (M unit)) : M unit :=
  match tasks with
  | [] => ret tt
  | t :: ts =>
      fun w =>
        let (w1, r1) := t w in
        let (w2, r2) := gather ts w1 in
        (w2, first_failure r1 r2)
  end.

(** ** Objects and the dict *)

(** [d[k] = v]: an existing key keeps its position, a new one goes last. *)
Fixpoint dict_set {A} (k : string) (v : A) (d : list (string * A))
  : list (string * A) :=
  match d with
  | [] => [(k, v)]
  | (k', v') :: rest =>
      if String.eqb k k' then (k, v) :: rest else (k', v') :: dict_set k v rest
  end.

(** The object a key of [self.flights] leads to. *)
Definition stored (w : world) (key : string) : option Flight :=
  match assoc_get key (flights w) with
  | Some r => heap w !! r
  | None => None
  end.

(** [self.flights.values()] *)
Definition values (w : world) : list Flight :=
  omap (fun kv => heap w !! snd kv) (flights w).

(** The dict with the objects in place of their addresses. *)
Definition snapshot (w : world) : list (string * option Flight) :=
  map (fun kv => (fst kv, heap w !! snd kv)) (flights w).

(** Reading an object. Addresses held by the crawler are always live, so the
    failure branch is there for totality only. *)
Definition deref (r : nat) : M Flight :=
  fun w =>
    match heap w !! r with
    | Some f => (w, Ok f)
    | None => (w, Raise (OtherError "dangling reference"))
    end.

(** [flight.attr = value] on the object at address [r]. *)
Definition mutate (r : nat) (f : Flight -> Flight) : M unit :=
  modify (fun w =>
    match heap w !! r with
    | Some old => with_heap (<[r := f old]> (heap w)) w
    | None => w
    end).

Section Crawler.

(** The offset of local time from UTC, in seconds: the time zone of the
    machine, which [datetime.fromtimestamp] consults. *)
Variable utc_offset : Z.

(** [datetime.fromtimestamp(ts)] for an integer [ts], in a zone that keeps
    one offset all year; the year must fit a [datetime], and the kind of the
    exception raised otherwise, which depends on the platform, is not
    represented: no statement depends on it. *)
Definition fromtimestamp (ts : Z) : outcome datetime :=
  let local := ts + utc_offset in
  let '(y, m, d) := civil_from_days (local / 86400) in
  let s := local mod 86400 in
  get dt <- date_new y m d;
  Ok (mkDatetime dt (s / 3600) (s mod 3600 / 60) (s mod 60)).

(** [Flight(json_data)], for the entries the service documents: a token and
    two city codes that are strings, a price and two timestamps that are
    integers. [Flight.__init__] stores the four first fields as it finds them;
    the statements below that build flights take entries of the documented
    types, on which the two agree. *)
Definition Flight_init (json_data : json) : outcome Flight :=
  get token <- (get v <- subscript json_data "booking_token"; as_str v);
  get code_from <- (get v <- subscript json_data "cityCodeFrom"; as_str v);
  get code_to <- (get v <- subscript json_data "cityCodeTo"; as_str v);
  get cost <- (get v <- subscript json_data "price"; as_num v);
  get dtime <- (get v <- subscript json_data "dTime"; as_num v);
  get dep <- fromtimestamp dtime;
  get atime <- (get v <- subscript json_data "aTime"; as_num v);
  get arr <- fromtimestamp atime;
  Ok (mkFlight true token code_from code_to cost dep arr).

(** ** main.py: Crawler *)

(** [Crawler.send_request(url)]: the next exchange of [net] answers the
    request. An [aiohttp.ClientError] is logged and the method falls off its
    end, returning [None]; any other exception propagates. *)
Definition send_request (url : string) : M json :=
  fun w =>
    match net w with
    | [] => (log (EvRequest url) w, Blocked)
    | o :: rest =>
        let w1 := log (EvRequest url) (with_net rest w) in
        match o with
        | FetchBody body => (w1, Ok body)
        | FetchClientError => (w1, Ok JNull)
        | FetchRaises e => (w1, Raise e)
        end
    end.

(** The key of a flight in [self.flights]:
    ['-'.join([flight.fly_from, flight.fly_to, str(flight.dep_date)])] *)
Definition flight_key (f : Flight) : string :=
  fly_from f +:+ "-" +:+ fly_to f +:+ "-" +:+ dep_date f.

(** The test that makes the loop of [search_flight] skip a candidate:
    [key in self.flights and self.flights[key].is_valid and
     self.flights[key].price < flight.price]. *)
Definition keeps_stored (w : world) (key : string) (flight : Flight) : bool :=
  match stored w key with
  | Some old => is_valid old && (price old <? price flight)
  | None => false
  end.

(** [self.flights[key] = flight], for a newly built [flight]: the object gets
    the next free address. *)
Definition assign_flight (key : string) (flight : Flight) (w : world) : world :=
  with_flights (dict_set key (length (heap w)) (flights w))
               (with_heap (heap w ++ [flight]) w).

(** One round of the [for] loop of [search_flight], once the candidate is
    built. *)
Definition store_flight (flight : Flight) (w : world) : world :=
  let key := flight_key flight in
  if keeps_stored w key flight then w else assign_flight key flight w.

(** The [for] loop of [search_flight]. *)
Fixpoint search_loop (entries : list json) : M unit :=
  match entries with
  | [] => ret tt
  | json_data :: rest =>
      run flight <- lift (Flight_init json_data);
      exec modify (store_flight flight);
      search_loop rest
  end.

(** [Crawler.search_flight(fly_from, fly_to, date_from, date_to)] *)
Definition search_flight (fly_from fly_to date_from date_to : string) : M unit :=
  exec modify (log (EvSearch fly_from fly_to date_from date_to));
  let search_url := SEARCH_FLIGHT_URL fly_from fly_to date_from date_to in
  run response_data <- send_request search_url;
  run data <- lift (subscript response_data "data");
  run entries <- lift (py_iter data);
  search_loop entries.

(** The [while True] loop of [check_flight]. Every round consumes one
    exchange of [net], so [fuel] rounds are enough as soon as [fuel] exceeds
    the length of [net] (lemma [check_loop_fuel]); the result is the checked
    response together with the final value of [retries]. *)
Fixpoint check_loop (fuel : nat) (check_url : string) (retries : Z)
  : M (json * Z) :=
  match fuel with
  | O => lift Blocked
  | S fuel' =>
      run data <- with_semaphore (send_request check_url);
      run checked <- lift (subscript data "flights_checked");
      if truthy checked then ret (data, retries)
      else
        let retries := retries + 1 in
        exec sleep (DELAY_TIME * retries);
        check_loop fuel' check_url retries
  end.

(** What [check_flight] does once the loop has ended with [data]. The price
    of a [Flight] is an integer here, so the new price is read as one;
    [check_flight] assigns [data['total']] as it finds it, and the statements
    on a price change take an integer total, on which the two agree. *)
Definition dispatch (r : nat) (data : json) : M unit :=
  run invalid <- lift (subscript data "flights_invalid");
  if truthy invalid then
    exec mutate r (set_is_valid false);
    run flight <- deref r;
    search_flight (fly_from flight) (fly_to flight)
                  (dep_date flight) (arr_date flight)
  else
    run changed <- lift (subscript data "price_change");
    if truthy changed then
      run total <- lift (get v <- subscript data "total"; as_num v);
      mutate r (set_price total)
    else ret tt.

(** [Crawler.check_flight(flight)], for the object at address [r]. *)
Definition check_flight (r : nat) : M unit :=
  run flight <- deref r;
  let check_url := CHECK_FLIGHT_URL (booking_token flight) in
  run res <- (fun w => check_loop (S (length (net w))) check_url 0 w);
  dispatch r (fst res).

(** The text [write_to_file] writes: [str(value) + '\n'] for each value. *)
Definition render (fs : list Flight) : string :=
  String.concat "" (map (fun f => Flight_str f +:+ newline) fs).

(** [Crawler.write_to_file()]: the file is opened with mode ["w"], so the
    text replaces what the file held. *)
Definition write_to_file : M unit :=
  modify (fun w =>
    let content := render (values w) in
    log (EvWrite content) (with_output_file content w)).

(** The tasks of one round of [check_flights_periodically]: one
    [check_flight] for each object the dict holds at that moment. *)
Definition check_tasks (w : world) : list (M unit) :=
  map (fun kv => check_flight (snd kv)) (flights w).

(** One round of [check_flights_periodically], up to its file write. *)
Definition check_pass : M unit :=
  run tasks <- (fun w => (w, Ok (check_tasks w)));
  exec gather tasks;
  write_to_file.

(** The tasks of one round of [search_flights_periodically]: one
    [search_flight] for each configured direction. *)
Definition search_tasks (date_from date_to : string) : list (M unit) :=
  map (fun flight_dir =>
         search_flight (fst flight_dir) (snd flight_dir) date_from date_to)
      FLIGHT_DIRECTIONS.

(** One round of [search_flights_periodically], up to its file write, with
    [date.today()] passed in as [today]. *)
Definition search_pass (today : date) : M unit :=
  exec modify (with_flights []);
  run range <- lift (get_date_range today);
  exec modify (with_dates (fst range) (snd range));
  exec gather (search_tasks (fst range) (snd range));
  write_to_file.

(** The same round when the responses of the searches arrive in the order
    [dirs], a permutation of the configured directions. A search has one
    suspension point, its request, and once its response is there it updates
    the dict without suspending; so what the fan-out does to the dict, and the
    order in which it fills it, is what the searches do when run one after
    the other in the order their responses arrive. (The requests are sent in
    the configured order whatever that order: the statements on
    [search_pass_in] are about the dict and the file.) *)
Definition search_tasks_in (dirs : list (string * string))
    (date_from date_to : string) : list (M unit) :=
  map (fun flight_dir =>
         search_flight (fst flight_dir) (snd flight_dir) date_from date_to)
      dirs.

Definition search_pass_in (dirs : list (string * string)) (today : date)
  : M unit :=
  exec modify (with_flights []);
  run range <- lift (get_date_range today);
  exec modify (with_dates (fst range) (snd range));
  exec gather (search_tasks_in dirs (fst range) (snd range));
  write_to_file.

End Crawler.

(** ** Vocabulary for the statements *)

(** The outcomes of the tasks of a fan-out, in the order [gather] runs
    them, and the first exception among them. *)
Fixpoint outcomes (tasks : list (M unit)) (w : world) : list (outcome unit) :=
  match tasks with
  | [] => []
  | t :: ts => let (w1, r1) := t w in r1 :: outcomes ts w1
  end.

Fixpoint first_raise (rs : list (outcome unit)) : option exn :=
  match rs with
  | [] => None
  | Raise e :: _ => Some e
  | _ :: rest => first_raise rest
  end.

(** A computation that leaves the output file alone. *)
Definition no_write (t : M unit) : Prop :=
  forall w, output_file (fst (t w)) = output_file w /\
            writes (trace (fst (t w))) = writes (trace w).

(** Every address of the dict is that of an object. *)
Definition live (w : world) : Prop :=
  Forall (fun kv : string * nat => (snd kv < length (heap w))%nat) (flights w).

(** Two worlds with the same dict content, object for object, and the same
    exchanges to come. *)
Definition same_store (w w' : world) : Prop :=
  snapshot w = snapshot w' /\ net w = net w' /\ live w /\ live w'.

(** A computation whose outcome and effect on the dict depend on nothing but
    the dict content and the exchanges to come. *)
Definition respects (t : M unit) : Prop :=
  forall w w', same_store w w' ->
    snd (t w) = snd (t w') /\ same_store (fst (t w)) (fst (t w')).

(** The exchanges of a round of searches whose responses arrive in the order
    [dirs], when the service answers the request for [url] with [api url]:
    each search receives the answer to its own request. *)
Definition responses_for (api : string -> fetch_outcome)
    (dirs : list (string * string)) (date_from date_to : string)
  : list fetch_outcome :=
  map (fun flight_dir =>
         api (SEARCH_FLIGHT_URL (fst flight_dir) (snd flight_dir)
                                date_from date_to))
      dirs.

(** An exchange that answers a check with a body that does not report
    [flights_checked], and one whose body reports it. *)
Definition unchecked (o : fetch_outcome) : bool :=
  match o with
  | FetchBody data =>
      match subscript data "flights_checked" with
      | Ok c => negb (truthy c)
      | _ => false
      end
  | _ => false
  end.

Definition checked (data : json) : bool :=
  match subscript data "flights_checked" with
  | Ok c => truthy c
  | _ => false
  end.

(** The events of [n] failed rounds of the loop of [check_flight], entered
    with [retries = k]: each round fetches inside the semaphore, then sleeps
    [DELAY_TIME] times the incremented counter. *)
Fixpoint backoff (url : string) (k : Z) (n : nat) : list event :=
  match n with
  | O => []
  | S n' =>
      [EvAcquire; EvRequest url; EvRelease; EvSleep (DELAY_TIME * (k + 1))]
      ++ backoff url (k + 1) n'
  end.

(** The events of the round that ends the loop. *)
Definition last_round (url : string) : list event :=
  [EvAcquire; EvRequest url; EvRelease].

(** The world in which the loop of [check_flight] ends, when the network
    answers [pre] and then one more exchange: [rest] is what is left of it. *)
Definition after_loop (f : Flight) (pre rest : list fetch_outcome) (w : world)
  : world :=
  let url := CHECK_FLIGHT_URL (booking_token f) in
  logs (backoff url 0 (length pre) ++ last_round url) (with_net rest w).

(** ** Sample data

    A response entry, the flight it is parsed into at UTC, and small worlds
    on which the statements below are exercised. *)

Module Sample.

Definition entry (token code_from code_to : string) (cost dtime atime : Z)
  : json :=
  JObj [("booking_token", JStr token); ("cityCodeFrom", JStr code_from);
        ("cityCodeTo", JStr code_to); ("price", JNum cost);
        ("dTime", JNum dtime); ("aTime", JNum atime)].

(** Departure on 02/11/2026 at 06:13:20 UTC, arrival two hours later. *)
Definition ala_tse : json := entry "tok-1" "ALA" "TSE" 100 1793600000 1793607200.
Definition tse_ala : json := entry "tok-2" "TSE" "ALA" 120 1793600000 1793607200.

Definition flight : Flight :=
  mkFlight true "tok-1" "ALA" "TSE" 100
           (mkDatetime (mkDate 2026 11 2) 6 13 20)
           (mkDatetime (mkDate 2026 11 2) 8 13 20).

Definition body (entries : list json) : fetch_outcome :=
  FetchBody (JObj [("data", JArr entries)]).

Definition not_checked : fetch_outcome :=
  FetchBody (JObj [("flights_checked", JBool false)]).

Definition price_changed : json :=
  JObj [("flights_checked", JBool true); ("flights_invalid", JBool false);
        ("price_change", JBool true); ("total", JNum 90)].

Definition invalid_and_changed : json :=
  JObj [("flights_checked", JBool true); ("flights_invalid", JBool true);
        ("price_change", JBool true); ("total", JNum 90)].

(** A crawler that holds [flight] and is about to receive [exchanges]. *)
Definition holding (f : Flight) (exchanges : list fetch_outcome) : world :=
  mkWorld [f] [("ALA-TSE-02/11/2026", 0%nat)] "03/11/2026" "03/12/2026"
          exchanges [] "".

Definition still_valid : json :=
  JObj [("flights_checked", JBool true); ("flights_invalid", JBool false);
        ("price_change", JBool false)].

(** A crawler at start: the two first directions will each return a flight,
    the others none; the checks that follow report a new price for the first
    flight and nothing new for the second. *)
Definition two_flights : world :=
  mkWorld [] [] "" ""
          (body [ala_tse] :: body [tse_ala] :: replicate 8 (body []) ++
           [FetchBody price_changed; FetchBody still_valid])
          [] "".

Definition line (code_from code_to cost : string) : string :=
  "fly_from: " +:+ code_from +:+ " | fly_to: " +:+ code_to +:+
  " | dep_time: 2026-11-02 06:13:20 | arr_time: 2026-11-02 08:13:20 | price: "
  +:+ cost +:+ newline.

(** A crawler with an empty dict and a file written by an earlier pass. The
    first direction's fetch fails, the second returns a flight, the other
    eight return no flight. *)
Definition one_failure : world :=
  mkWorld [] [] "" ""
          (FetchClientError :: body [tse_ala] :: replicate 8 (body []))
          [] "stale".

(** A service that has one flight for each of the two first directions on
    the window of 01/11/2026, and none for the others. *)
Definition api (url : string) : fetch_outcome :=
  if String.eqb url (SEARCH_FLIGHT_URL "ALA" "TSE" "01/11/2026" "01/12/2026")
  then body [ala_tse]
  else if String.eqb url (SEARCH_FLIGHT_URL "TSE" "ALA" "01/11/2026" "01/12/2026")
  then body [tse_ala]
  else body [].

(** The configured directions with the two first exchanged: an order in
    which the responses of a round may arrive. *)
Definition arrival : list (string * string) :=
  [ ("TSE", "ALA"); ("ALA", "TSE"); ("ALA", "MOW"); ("MOW", "ALA");
    ("ALA", "CIT"); ("CIT", "ALA"); ("TSE", "MOW"); ("MOW", "TSE");
    ("TSE", "LED"); ("LED", "TSE") ].

(** A first daily pass on 01/11/2026, from a crawler at start, whose
    responses arrive in the configured order; and a second pass on the state
    the first left, against the same service, whose responses arrive in the
    order [arrival]. *)
Definition first_pass : world * outcome unit :=
  search_pass_in 0 FLIGHT_DIRECTIONS (mkDate 2026 11 1)
    (mkWorld [] [] "" ""
       (responses_for api FLIGHT_DIRECTIONS "01/11/2026" "01/12/2026") [] "").

Definition second_pass : world * outcome unit :=
  search_pass_in 0 arrival (mkDate 2026 11 1)
    (with_net (responses_for api arrival "01/11/2026" "01/12/2026")
       (fst first_pass)).

End Sample.

(** ** utils.py: the sleep until midnight *)

(** The day number of a date ([date.toordinal()], 1 for 0001-01-01), which
    the arithmetic of dates and datetimes goes through. *)
Definition days_before_year (y : Z) : Z :=
  let p := y - 1 in p * 365 + p / 4 - p / 100 + p / 400.

Definition days_before_month (y m : Z) : Z :=
  match m with
  | 1 => 0 | 2 => 31 | 3 => 59 | 4 => 90 | 5 => 120 | 6 => 151
  | 7 => 181 | 8 => 212 | 9 => 243 | 10 => 273 | 11 => 304 | _ => 334
  end + (if (2 <? m) && is_leap y then 1 else 0).

Definition toordinal (d : date) : Z :=
  days_before_year (year d) + days_before_month (year d) (month d) + day d.

(** [d + timedelta(days=1)]: the date of the next day number, or
    [OverflowError] past 31/12/9999. *)
Definition next_day (d : date) : outcome date :=
  if day d <? days_in_month (year d) (month d)
  then Ok (mkDate (year d) (month d) (day d + 1))
  else if month d <? 12 then Ok (mkDate (year d) (month d + 1) 1)
  else if year d <? MAXYEAR then Ok (mkDate (year d + 1) 1 1)
  else Raise (OtherError "OverflowError").

Definition seconds_of_day (dt : datetime) : Z :=
  hour dt * 3600 + minute dt * 60 + second dt.

Definition valid_datetime (dt : datetime) : bool :=
  valid_date (year (dt_date dt)) (month (dt_date dt)) (day (dt_date dt)) &&
  (0 <=? hour dt) && (hour dt <? 24) &&
  (0 <=? minute dt) && (minute dt <? 60) &&
  (0 <=? second dt) && (second dt <? 60).

(** [(a - b).total_seconds()] for two datetimes with the same microsecond
    field: a whole number of seconds. *)
Definition total_seconds_between (a b : datetime) : Z :=
  (toordinal (dt_date a) - toordinal (dt_date b)) * 86400 +
  (seconds_of_day a - seconds_of_day b).

(** [get_sleep_period()], with [datetime.now()] passed in as [today]. The
    [replace] sets hour, minute and second and keeps the microsecond, so the
    microseconds of [midnight] and [today] cancel in the difference. *)
Definition get_sleep_period (today : datetime) : outcome Z :=
  get next_date <- next_day (dt_date today);
  let next_day := mkDatetime next_date (hour today) (minute today) (second today) in
  let midnight := mkDatetime (dt_date next_day) 0 0 0 in
  Ok (total_seconds_between midnight today).

(** ** More vocabulary *)

(** The flights a list of response entries is parsed into, when every entry
    can be parsed. *)
Fixpoint parse_all (utc_offset : Z) (entries : list json) : outcome (list Flight) :=
  match entries with
  | [] => Ok []
  | json_data :: rest =>
      get flight <- Flight_init utc_offset json_data;
      get others <- parse_all utc_offset rest;
      Ok (flight :: others)
  end.

(** The rounds of the loop of [search_flight] on candidates already built. *)
Definition store_all (candidates : list Flight) (w : world) : world :=
  fold_left (fun w flight => store_flight flight w) candidates w.

(** The candidates of a key. *)
Definition with_key (key : string) (candidates : list Flight) : list Flight :=
  filter (fun c => flight_key c = key) candidates.

(** The dict is a dict (no key twice) and every key is the key of the flight
    it leads to. *)
Definition keyed (w : world) : Prop :=
  Forall (fun kv : string * nat =>
            exists f, heap w !! snd kv = Some f /\ flight_key f = fst kv)
         (flights w).

Definition consistent (w : world) : Prop :=
  NoDup (map fst (flights w)) /\ keyed w.

(** Every flight of the dict is valid. *)
Definition all_valid (w : world) : Prop :=
  Forall (fun kv : string * nat =>
            exists f, heap w !! snd kv = Some f /\ is_valid f = true)
         (flights w).

(** Every address of the dict is that of an object, and [Q] holds of each
    key with its object. *)
Definition holds (Q : string -> Flight -> Prop) (w : world) : Prop :=
  Forall (fun kv : string * nat =>
            exists f, heap w !! snd kv = Some f /\ Q (fst kv) f)
         (flights w).

(** No key twice, and [Q] of each key with its object. *)
Definition store_invariant (Q : string -> Flight -> Prop) (w : world) : Prop :=
  NoDup (map fst (flights w)) /\ holds Q w.

Definition preserves (P : world -> Prop) (t : M unit) : Prop :=
  forall w, P w -> P (fst (t w)).

(** Reading a trace for the use of the semaphore: [slot_after held es] is
    whether the slot is held after the events [es], starting from [held], and
    [None] when [es] acquires a slot already held, releases one not held, or
    sleeps, calls [search_flight] or writes the file while holding it. *)
Fixpoint slot_after (held : bool) (es : list event) : option bool :=
  match es with
  | [] => Some held
  | EvAcquire :: rest => if held then None else slot_after true rest
  | EvRelease :: rest => if held then slot_after false rest else None
  | EvRequest _ :: rest => slot_after held rest
  | _ :: rest => if held then None else slot_after false rest
  end.

(** The requests of a trace. *)
Definition requests (tr : list event) : list string :=
  omap (fun e => match e with EvRequest url => Some url | _ => None end) tr.

(** A string without the separator of the keys. *)
Fixpoint dashless (s : string) : bool :=
  match s with
  | EmptyString => true
  | String c rest => negb (Ascii.eqb c (Ascii.ascii_of_nat 45)) && dashless rest
  end.

(** A checked answer that reports neither an invalid flight nor a price
    change. *)
Definition nothing_new (data : json) : bool :=
  checked data &&
  match subscript data "flights_invalid", subscript data "price_change" with
  | Ok v, Ok c => negb (truthy v) && negb (truthy c)
  | _, _ => false
  end.

(** The check URLs of the flights of the dict, in its order. *)
Definition check_urls (w : world) : list string :=
  map (fun f => CHECK_FLIGHT_URL (booking_token f)) (values w).

(** ** More sample data *)

Module Offers.

(** Two more offers for the route and the day of [Sample.flight], at 90 and
    at 95. *)
Definition at_90 : json := Sample.entry "tok-3" "ALA" "TSE" 90 1793600000 1793607200.
Definition at_95 : json := Sample.entry "tok-4" "ALA" "TSE" 95 1793600000 1793607200.

Definition flight_90 : Flight :=
  mkFlight true "tok-3" "ALA" "TSE" 90
           (dep_time Sample.flight) (arr_time Sample.flight).

Definition flight_95 : Flight :=
  mkFlight true "tok-4" "ALA" "TSE" 95
           (dep_time Sample.flight) (arr_time Sample.flight).

Definition key : string := "ALA-TSE-02/11/2026".

Definition invalid : json :=
  JObj [("flights_checked", JBool true); ("flights_invalid", JBool true)].

End Offers.

(** ** The tasks of a fan-out under the event loop

    The tasks of a fan-out run concurrently: between two of its suspension
    points a task runs alone, and the event loop then resumes any task that
    can go on. A task is followed through the events it makes, in order: those
    that [check_flight] or [search_flight] add to the trace, on the answers
    the task receives. *)

(** The events a computation adds to the trace. *)
Definition events_of (t : M unit) (w : world) : list event :=
  drop (length (trace w)) (trace (fst (t w))).

(** The events of a task of the crawler. *)
Definition crawler_program (utc_offset : Z) (es : list event) : Prop :=
  (exists r w, es = events_of (check_flight utc_offset r) w) \/
  (exists a b c d w, es = events_of (search_flight utc_offset a b c d) w).

(** A request for a validation check, as opposed to a search. *)
Definition is_check_url (url : string) : bool :=
  String.prefix (CHECK_FLIGHTS +:+ "/api/v0.1/check_flights?") url.

(** Whether a task holds a slot after the events [es], starting from
    [held]. *)
Fixpoint held_after (held : bool) (es : list event) : bool :=
  match es with
  | [] => held
  | EvAcquire :: rest => held_after true rest
  | EvRelease :: rest => held_after false rest
  | _ :: rest => held_after held rest
  end.

(** Reading the events of a task for the use of the semaphore: a slot is
    taken only when none is held and given back only when one is; a check is
    requested only while a slot is held; a search is requested, a sleep and a
    file write are made only while none is. *)
Fixpoint guarded (held : bool) (es : list event) : bool :=
  match es with
  | [] => true
  | EvAcquire :: rest => negb held && guarded true rest
  | EvRelease :: rest => held && guarded false rest
  | EvRequest url :: rest => Bool.eqb (is_check_url url) held && guarded held rest
  | _ :: rest => negb held && guarded held rest
  end.

Module EventLoop.

(** A task: the events it has made and those it has still to make. *)
Record task : Type := mkTask {
  past : list event;
  ahead : list event
}.

(** The semaphore, [asyncio.Semaphore(MAX_TASKS)], as its number of free
    slots, and the tasks. *)
Record state : Type := mkState {
  free : nat;
  tasks : list task
}.

Definition start (programs : list (list event)) : state :=
  mkState MAX_TASKS (map (mkTask []) programs).

(** What an event does to the number of free slots: [acquire()] takes a slot
    when one is free and leaves the task suspended otherwise; [release()]
    gives one back; the other events leave the semaphore alone. *)
Definition after_event (e : event) (slots : nat) : option nat :=
  match e with
  | EvAcquire => match slots with
                 | O => None
                 | S n => Some n
                 end
  | EvRelease => Some (S slots)
  | _ => Some slots
  end.

(** The event loop resumes task [i], which makes its next event. *)
Definition advance (i : nat) (s : state) : option state :=
  match tasks s !! i with
  | Some (mkTask made (e :: rest)) =>
      match after_event e (free s) with
      | Some slots =>
          Some (mkState slots (<[i := mkTask (made ++ [e]) rest]> (tasks s)))
      | None => None
      end
  | _ => None
  end.

(** The event loop resumes the tasks of [schedule], one after the other. *)
Fixpoint advances (schedule : list nat) (s : state) : option state :=
  match schedule with
  | [] => Some s
  | i :: later =>
      match advance i s with
      | Some s' => advances later s'
      | None => None
      end
  end.

(** The request a task awaits the answer of: the last event it made. *)
Definition awaits (p : task) : option string :=
  match last (past p) with
  | Some (EvRequest url) => Some url
  | _ => None
  end.

Definition in_check_fetch (p : task) : bool :=
  match awaits p with
  | Some url => is_check_url url
  | None => false
  end.

Definition in_search_fetch (p : task) : bool :=
  match awaits p with
  | Some url => negb (is_check_url url)
  | None => false
  end.

Definition holds_slot (p : task) : bool := held_after false (past p).

Definition count (f : task -> bool) (l : list task) : nat :=
  length (List.filter f l).

(** A task that has made its two first events. *)
Definition enter (program : list event) : task :=
  match program with
  | e1 :: e2 :: rest => mkTask [e1; e2] rest
  | _ => mkTask [] program
  end.

(** The schedule that resumes twice each of the [m] tasks from task [i]
    on. *)
Definition burst (i m : nat) : list nat :=
  flat_map (fun j => [j; j]) (seq i m).

End EventLoop.

(** The events of the checks of a burst of flights, each given by the address
    of the flight and the world its task runs in, and those of a round of
    searches. *)
Definition check_programs (utc_offset : Z) (jobs : list (nat * world))
  : list (list event) :=
  map (fun job => events_of (check_flight utc_offset (fst job)) (snd job)) jobs.

Definition search_programs (utc_offset : Z)
    (calls : list (string * string * string * string * world))
  : list (list event) :=
  map (fun call =>
         let '(a, b, c, d, w) := call in
         events_of (search_flight utc_offset a b c d) w)
      calls.


(** * Properties *)

Ltac split_ands := repeat match goal with |- _ /\ _ => split end.

(** ** The dict *)

Lemma assoc_get_dict_set_eq {A} (k : string) (v : A) (d : list (string * A)) :
  assoc_get k (dict_set k v d) = Some v.
Proof.
  induction d as [|[k' v'] d IH]; simpl.
  - now rewrite String.eqb_refl.
  - destruct (String.eqb k k') eqn:E; simpl; rewrite ?String.eqb_refl, ?E; auto.
Qed.

Lemma assoc_get_dict_set_ne {A} (k k' : string) (v : A) (d : list (string * A)) :
  k <> k' -> assoc_get k' (dict_set k v d) = assoc_get k' d.
Proof.
  intros Hne. induction d as [|[k0 v0] d IH]; simpl.
  - destruct (String.eqb k' k) eqn:E; auto.
    apply String.eqb_eq in E. congruence.
  - destruct (String.eqb k k0) eqn:E; simpl.
    + apply String.eqb_eq in E. subst k0.
      destruct (String.eqb k' k) eqn:E'; auto.
      apply String.eqb_eq in E'. congruence.
    + now rewrite IH.
Qed.

(** ** The date window *)

(** [get_next_month] keeps the day of the month: it moves the date one month
    ahead, and fails when the next month has no such day. *)
Lemma get_next_month_keeps_day (cur next : date) :
  get_next_month cur = Ok next ->
  day next = day cur /\
  (month cur = 12 -> month next = 1 /\ year next = year cur + 1) /\
  (month cur <> 12 -> month next = month cur + 1 /\ year next = year cur).
Proof.
  unfold get_next_month, date_replace, date_new.
  destruct (month cur =? 12) eqn:E; intros H.
  - apply Z.eqb_eq in E.
    destruct (valid_date _ _ _); [|discriminate]. injection H as <-. simpl.
    split_ands; auto; intros; lia.
  - apply Z.eqb_neq in E.
    destruct (valid_date _ _ _); [|discriminate]. injection H as <-. simpl.
    split_ands; auto; intros; lia.
Qed.

(** It gives the first day of the next month only on the first day of a
    month. *)
Lemma get_next_month_first_day (cur : date) :
  get_next_month cur = Ok (first_of_next_month cur) -> day cur = 1.
Proof.
  intros H. apply get_next_month_keeps_day in H as [Hd _].
  unfold first_of_next_month in Hd. now destruct (month cur =? 12).
Qed.

Lemma get_date_range_from (today : date) (df dt : string) :
  get_date_range today = Ok (df, dt) -> df = strftime_dmy today.
Proof.
  unfold get_date_range. destruct (get_next_month today); simpl; congruence.
Qed.

(** C4. On 15/10/2026 [get_date_range] returns the window 15/10/2026 to
    15/11/2026: [date_from] is today, but [date_to] is the same day of the
    next month, not its first day, 01/11/2026; on 31/10/2026 it raises
    [ValueError], November having no 31st. *)
Theorem get_date_range_same_day_next_month :
  get_date_range (mkDate 2026 10 15) = Ok ("15/10/2026", "15/11/2026") /\
  strftime_dmy (first_of_next_month (mkDate 2026 10 15)) = "01/11/2026" /\
  get_date_range (mkDate 2026 10 31) = Raise ValueError.
Proof. split_ands; reflexivity. Qed.

Section CrawlerProperties.

Variable utc_offset : Z.

(** ** Storing a candidate *)

Lemma stored_assign_flight (w : world) (key : string) (flight : Flight) :
  stored (assign_flight key flight w) key = Some flight.
Proof.
  unfold stored, assign_flight; simpl.
  rewrite assoc_get_dict_set_eq.
  now apply list_lookup_middle.
Qed.

Lemma keeps_stored_true (w : world) (key : string) (flight : Flight) :
  keeps_stored w key flight = true <->
  exists old, stored w key = Some old /\ is_valid old = true /\
              price old < price flight.
Proof.
  unfold keeps_stored. split.
  - destruct (stored w key) as [old|]; [|discriminate].
    intros H. apply andb_true_iff in H as [Hv Hp].
    exists old. repeat split; auto. now apply Z.ltb_lt.
  - intros (old & -> & Hv & Hp). rewrite Hv. simpl. now apply Z.ltb_lt.
Qed.

(** ** Events *)

Lemma log_logs (e : event) (w : world) : log e w = logs [e] w.
Proof. reflexivity. Qed.

Lemma logs_logs (es es' : list event) (w : world) :
  logs es' (logs es w) = logs (es ++ es') w.
Proof. unfold logs; simpl. now rewrite <- app_assoc. Qed.

Lemma logs_nil (w : world) : logs [] w = w.
Proof. destruct w; unfold logs; simpl. now rewrite app_nil_r. Qed.

Lemma searches_app (t1 t2 : list event) :
  searches (t1 ++ t2) = searches t1 ++ searches t2.
Proof. apply omap_app. Qed.

Lemma sleeps_app (t1 t2 : list event) : sleeps (t1 ++ t2) = sleeps t1 ++ sleeps t2.
Proof. apply omap_app. Qed.

Lemma writes_app (t1 t2 : list event) : writes (t1 ++ t2) = writes t1 ++ writes t2.
Proof. apply omap_app. Qed.

(** ** The retry loop of [check_flight] *)

(** One round of the loop, on the next exchange [o] of the network. *)
Lemma check_loop_step (fuel : nat) (url : string) (k : Z) (w : world)
    (o : fetch_outcome) (rest : list fetch_outcome) :
  net w = o :: rest ->
  let w1 := logs [EvAcquire; EvRequest url; EvRelease] (with_net rest w) in
  check_loop (S fuel) url k w =
  match o with
  | FetchBody data =>
      match subscript data "flights_checked" with
      | Ok checked =>
          if truthy checked then (w1, Ok (data, k))
          else check_loop fuel url (k + 1)
                 (logs [EvSleep (DELAY_TIME * (k + 1))] w1)
      | Raise e => (w1, Raise e)
      | Blocked => (w1, Blocked)
      end
  | FetchClientError => (w1, Raise TypeError)
  | FetchRaises e => (w1, Raise e)
  end.
Proof.
  intros Hnet w1. subst w1.
  cbn [check_loop]. unfold bind at 1. unfold with_semaphore, send_request.
  cbn [net log with_net]. rewrite Hnet.
  assert (Hw : forall w0, log EvRelease (log (EvRequest url) (with_net rest (log EvAcquire w0)))
               = logs [EvAcquire; EvRequest url; EvRelease] (with_net rest w0)).
  { intros w0. unfold log, logs, with_net; simpl. now rewrite <- !app_assoc. }
  destruct o as [data| |e]; rewrite Hw; try reflexivity.
  unfold bind, lift. destruct (subscript data "flights_checked") as [c|e|]; try reflexivity.
  destruct (truthy c); reflexivity.
Qed.

Lemma check_loop_blocked (fuel : nat) (url : string) (k : Z) (w : world) :
  net w = [] ->
  check_loop (S fuel) url k w = (logs [EvAcquire; EvRequest url] w, Blocked).
Proof.
  intros Hnet.
  cbn [check_loop]. unfold bind at 1. unfold with_semaphore, send_request.
  cbn [net log]. rewrite Hnet. f_equal.
  unfold log, logs; simpl. now rewrite <- app_assoc.
Qed.

Lemma with_net_same (w : world) : with_net (net w) w = w.
Proof. now destruct w. Qed.

(** [n] rounds on unchecked answers: the counter goes up by [n], the rounds
    leave the events [backoff url k n]. *)
Lemma check_loop_unchecked (url : string) (pre : list fetch_outcome) :
  forallb unchecked pre = true ->
  forall (fuel : nat) (k : Z) (w : world) (rest : list fetch_outcome),
    net w = pre ++ rest ->
    check_loop (length pre + fuel) url k w =
    check_loop fuel url (k + Z.of_nat (length pre))
      (logs (backoff url k (length pre)) (with_net rest w)).
Proof.
  induction pre as [|o pre IH]; intros Hall fuel k w rest Hnet.
  - simpl in *. subst rest. rewrite with_net_same, logs_nil.
    now rewrite Z.add_0_r.
  - simpl in Hall. apply andb_true_iff in Hall as [Ho Hpre].
    cbn [length Nat.add].
    rewrite (check_loop_step _ url k w o (pre ++ rest) Hnet).
    destruct o as [data| |e]; try discriminate.
    unfold unchecked in Ho.
    destruct (subscript data "flights_checked") as [c| |]; try discriminate.
    apply negb_true_iff in Ho. rewrite Ho.
    rewrite (IH Hpre fuel (k + 1) _ rest) by reflexivity.
    f_equal; [lia|].
    unfold logs, with_net; simpl. f_equal. now rewrite <- !app_assoc.
Qed.

(** The fuel given by [check_flight] is never what stops the loop. *)
Lemma check_loop_fuel (url : string) (fuel fuel' : nat) :
  forall (k : Z) (w : world),
    (length (net w) < fuel)%nat -> (length (net w) < fuel')%nat ->
    check_loop fuel url k w = check_loop fuel' url k w.
Proof.
  revert fuel'. induction fuel as [|fuel IH]; intros fuel' k w H1 H2; [lia|].
  destruct fuel' as [|fuel']; [lia|].
  destruct (net w) as [|o rest] eqn:Hnet.
  - now rewrite !check_loop_blocked.
  - rewrite (check_loop_step fuel url k w o rest Hnet).
    rewrite (check_loop_step fuel' url k w o rest Hnet).
    destruct o as [data| |e]; try reflexivity.
    destruct (subscript data "flights_checked") as [c| |]; try reflexivity.
    destruct (truthy c); try reflexivity.
    simpl in H1, H2. apply IH; simpl; lia.
Qed.

(** The loop ends with the first checked answer, after as many retries as
    there were unchecked answers before it. *)
Lemma check_loop_checked (url : string) (pre : list fetch_outcome)
    (data : json) (rest : list fetch_outcome) (fuel : nat) (k : Z) (w : world) :
  forallb unchecked pre = true ->
  checked data = true ->
  net w = pre ++ FetchBody data :: rest ->
  check_loop (length pre + S fuel) url k w =
  (logs (backoff url k (length pre) ++ last_round url) (with_net rest w),
   Ok (data, k + Z.of_nat (length pre))).
Proof.
  intros Hpre Hd Hnet.
  rewrite (check_loop_unchecked url pre Hpre (S fuel) k w _ Hnet).
  rewrite (check_loop_step fuel url _ _ (FetchBody data) rest) by reflexivity.
  cbv iota. unfold checked in Hd.
  destruct (subscript data "flights_checked") as [c| |]; try discriminate.
  rewrite Hd. f_equal.
  unfold logs, with_net, last_round; simpl. f_equal. now rewrite <- !app_assoc.
Qed.

(** A failed fetch ends the loop with [TypeError]: [send_request] returned
    [None], which cannot be subscripted. *)
Lemma check_loop_absent (url : string) (pre rest : list fetch_outcome)
    (fuel : nat) (k : Z) (w : world) :
  forallb unchecked pre = true ->
  net w = pre ++ FetchClientError :: rest ->
  check_loop (length pre + S fuel) url k w =
  (logs (backoff url k (length pre) ++ last_round url) (with_net rest w),
   Raise TypeError).
Proof.
  intros Hpre Hnet.
  rewrite (check_loop_unchecked url pre Hpre (S fuel) k w _ Hnet).
  rewrite (check_loop_step fuel url _ _ FetchClientError rest) by reflexivity.
  cbv iota. f_equal.
  unfold logs, with_net, last_round; simpl. f_equal. now rewrite <- !app_assoc.
Qed.

Lemma sleeps_backoff (url : string) (n : nat) :
  forall k, sleeps (backoff url k n) =
            map (fun i => DELAY_TIME * (k + Z.of_nat i)) (seq 1 n).
Proof.
  induction n as [|n IH]; intros k; [reflexivity|].
  cbn [backoff]. rewrite sleeps_app, IH.
  change (sleeps [EvAcquire; EvRequest url; EvRelease;
                  EvSleep (DELAY_TIME * (k + 1))])
    with [DELAY_TIME * (k + 1)].
  cbn [app seq map]. f_equal.
  rewrite <- (seq_shift n 1%nat), map_map. apply map_ext. intros i. f_equal. lia.
Qed.

(** ** [search_flight] *)

Lemma store_flight_frame (flight : Flight) (w : world) :
  let w' := store_flight flight w in
  net w' = net w /\ trace w' = trace w /\ output_file w' = output_file w /\
  date_from w' = date_from w /\ date_to w' = date_to w /\
  exists added, heap w' = heap w ++ added.
Proof.
  unfold store_flight. destruct (keeps_stored _ _ _); simpl.
  - repeat split; auto. exists []. now rewrite app_nil_r.
  - repeat split; auto. now exists [flight].
Qed.

Lemma search_loop_frame (entries : list json) :
  forall w : world,
    let w' := fst (search_loop utc_offset entries w) in
    net w' = net w /\ trace w' = trace w /\ output_file w' = output_file w /\
    date_from w' = date_from w /\ date_to w' = date_to w /\
    exists added, heap w' = heap w ++ added.
Proof.
  induction entries as [|json_data rest IH]; intros w; simpl.
  - repeat split; auto. exists []. now rewrite app_nil_r.
  - unfold bind, lift, modify.
    destruct (Flight_init utc_offset json_data) as [flight|e|]; simpl.
    + destruct (store_flight_frame flight w) as (Hn & Ht & Ho & Hf & Hd & added & Hh).
      destruct (IH (store_flight flight w)) as (Hn' & Ht' & Ho' & Hf' & Hd' & added' & Hh').
      split_ands; try congruence.
      exists (added ++ added'). rewrite Hh', Hh. now rewrite app_assoc.
    + repeat split; auto. exists []. now rewrite app_nil_r.
    + repeat split; auto. exists []. now rewrite app_nil_r.
Qed.

(** [search_flight] on the next exchange [o] of the network. *)
Lemma search_flight_step (a b c d : string) (w : world)
    (o : fetch_outcome) (rest : list fetch_outcome) :
  net w = o :: rest ->
  let url := SEARCH_FLIGHT_URL a b c d in
  let w1 := logs [EvSearch a b c d; EvRequest url] (with_net rest w) in
  search_flight utc_offset a b c d w =
  match o with
  | FetchBody response_data =>
      match subscript response_data "data" with
      | Ok data =>
          match py_iter data with
          | Ok entries => search_loop utc_offset entries w1
          | Raise e => (w1, Raise e)
          | Blocked => (w1, Blocked)
          end
      | Raise e => (w1, Raise e)
      | Blocked => (w1, Blocked)
      end
  | FetchClientError => (w1, Raise TypeError)
  | FetchRaises e => (w1, Raise e)
  end.
Proof.
  intros Hnet url w1. subst w1 url.
  unfold search_flight. unfold bind at 1. unfold modify.
  unfold bind at 1. unfold send_request. cbn [net log]. rewrite Hnet.
  assert (Hw : log (EvRequest (SEARCH_FLIGHT_URL a b c d))
                 (with_net rest (log (EvSearch a b c d) w))
               = logs [EvSearch a b c d; EvRequest (SEARCH_FLIGHT_URL a b c d)]
                      (with_net rest w)).
  { unfold log, logs, with_net; simpl. now rewrite <- !app_assoc. }
  destruct o as [response_data| |e]; rewrite Hw; reflexivity.
Qed.

Lemma search_flight_blocked (a b c d : string) (w : world) :
  net w = [] ->
  search_flight utc_offset a b c d w =
  (logs [EvSearch a b c d; EvRequest (SEARCH_FLIGHT_URL a b c d)] w, Blocked).
Proof.
  intros Hnet. unfold search_flight. unfold bind at 1. unfold modify.
  unfold bind at 1. unfold send_request. cbn [net log]. rewrite Hnet.
  f_equal. unfold log, logs; simpl. now rewrite <- !app_assoc.
Qed.

(** What a call of [search_flight] leaves behind, whatever its outcome: one
    call event and one request, one exchange consumed, objects only added,
    the file and the stored window untouched. *)
Lemma search_flight_frame (a b c d : string) (w : world) :
  let w' := fst (search_flight utc_offset a b c d w) in
  trace w' = trace w ++ [EvSearch a b c d; EvRequest (SEARCH_FLIGHT_URL a b c d)] /\
  net w' = tail (net w) /\
  output_file w' = output_file w /\
  date_from w' = date_from w /\ date_to w' = date_to w /\
  exists added, heap w' = heap w ++ added.
Proof.
  assert (Hnil : forall h : list Flight, exists added, h = h ++ added).
  { intros h. exists []. now rewrite app_nil_r. }
  destruct (net w) as [|o rest] eqn:Hnet.
  - rewrite (search_flight_blocked a b c d w Hnet). simpl. rewrite Hnet.
    repeat split; auto.
  - rewrite (search_flight_step a b c d w o rest Hnet).
    set (w1 := logs _ (with_net rest w)).
    assert (H1 : trace w1 = trace w ++ [EvSearch a b c d;
                   EvRequest (SEARCH_FLIGHT_URL a b c d)] /\
                 net w1 = rest /\ output_file w1 = output_file w /\
                 date_from w1 = date_from w /\ date_to w1 = date_to w /\
                 heap w1 = heap w) by (subst w1; simpl; auto 10).
    destruct H1 as (Ht & Hn & Ho & Hf & Hd & Hh).
    assert (Hbase : trace w1 = trace w ++ [EvSearch a b c d;
                      EvRequest (SEARCH_FLIGHT_URL a b c d)] /\
                    net w1 = tail (o :: rest) /\ output_file w1 = output_file w /\
                    date_from w1 = date_from w /\ date_to w1 = date_to w /\
                    exists added, heap w1 = heap w ++ added).
    { rewrite Hh. repeat split; auto. }
    destruct o as [response_data| |e]; try exact Hbase.
    destruct (subscript response_data "data") as [data|e|]; try exact Hbase.
    destruct (py_iter data) as [entries|e|]; try exact Hbase.
    destruct (search_loop_frame entries w1) as (Hn' & Ht' & Ho' & Hf' & Hd' & added & Hh').
    simpl. split_ands; try congruence.
    exists added. congruence.
Qed.

(** C2. A fetch that fails with an [aiohttp.ClientError] makes [send_request]
    return [None] without raising; [search_flight] then subscripts that [None]
    and ends with [TypeError]. The dict and the objects are as before. *)
Theorem search_flight_failed_fetch_raises
    (a b c d : string) (w : world) (rest : list fetch_outcome) :
  let url := SEARCH_FLIGHT_URL a b c d in
  let w0 := with_net (FetchClientError :: rest) w in
  send_request url w0 = (logs [EvRequest url] (with_net rest w), Ok JNull) /\
  search_flight utc_offset a b c d w0 =
    (logs [EvSearch a b c d; EvRequest url] (with_net rest w), Raise TypeError) /\
  flights (fst (search_flight utc_offset a b c d w0)) = flights w /\
  heap (fst (search_flight utc_offset a b c d w0)) = heap w.
Proof.
  intros url w0.
  assert (Hs : search_flight utc_offset a b c d w0 =
    (logs [EvSearch a b c d; EvRequest url] (with_net rest w), Raise TypeError)).
  { subst w0 url.
    rewrite (search_flight_step a b c d _ FetchClientError rest) by reflexivity.
    reflexivity. }
  split; [reflexivity|]. split; [exact Hs|]. now rewrite Hs.
Qed.

(** ** [check_flight] *)

Lemma searches_backoff (url : string) (n : nat) :
  forall k, searches (backoff url k n) = [].
Proof.
  induction n as [|n IH]; intros k; [reflexivity|].
  cbn [backoff]. rewrite searches_app, IH. reflexivity.
Qed.

Lemma writes_backoff (url : string) (n : nat) :
  forall k, writes (backoff url k n) = [].
Proof.
  induction n as [|n IH]; intros k; [reflexivity|].
  cbn [backoff]. rewrite writes_app, IH. reflexivity.
Qed.

Lemma check_flight_fuel (pre : list fetch_outcome) (o : fetch_outcome)
    (rest : list fetch_outcome) :
  S (length (pre ++ o :: rest)) = (length pre + S (S (length rest)))%nat.
Proof. rewrite length_app. simpl. lia. Qed.

(** Once the loop has ended with [data], [check_flight] goes on with
    [dispatch]. *)
Lemma check_flight_after_loop (w : world) (r : nat) (f : Flight)
    (pre : list fetch_outcome) (data : json) (rest : list fetch_outcome) :
  heap w !! r = Some f ->
  forallb unchecked pre = true ->
  checked data = true ->
  net w = pre ++ FetchBody data :: rest ->
  check_flight utc_offset r w = dispatch utc_offset r data (after_loop f pre rest w).
Proof.
  intros Hr Hpre Hd Hnet. unfold check_flight.
  unfold bind at 1. unfold deref. rewrite Hr.
  unfold bind at 1. rewrite Hnet, check_flight_fuel.
  rewrite (check_loop_checked _ pre data rest _ 0 w Hpre Hd Hnet).
  reflexivity.
Qed.

(** A failed fetch in the loop ends [check_flight] itself. *)
Lemma check_flight_absent (w : world) (r : nat) (f : Flight)
    (pre rest : list fetch_outcome) :
  heap w !! r = Some f ->
  forallb unchecked pre = true ->
  net w = pre ++ FetchClientError :: rest ->
  check_flight utc_offset r w = (after_loop f pre rest w, Raise TypeError).
Proof.
  intros Hr Hpre Hnet. unfold check_flight.
  unfold bind at 1. unfold deref. rewrite Hr.
  unfold bind at 1. rewrite Hnet, check_flight_fuel.
  rewrite (check_loop_absent _ pre rest _ 0 w Hpre Hnet).
  reflexivity.
Qed.

Lemma after_loop_frame (f : Flight) (pre rest : list fetch_outcome) (w : world) :
  let w1 := after_loop f pre rest w in
  heap w1 = heap w /\ flights w1 = flights w /\ net w1 = rest /\
  output_file w1 = output_file w /\
  searches (trace w1) = searches (trace w) /\
  writes (trace w1) = writes (trace w).
Proof.
  unfold after_loop; simpl. split_ands; auto.
  - rewrite !searches_app, searches_backoff. simpl. now rewrite app_nil_r.
  - rewrite !writes_app, writes_backoff. simpl. now rewrite app_nil_r.
Qed.

(** The three branches of the dispatch. *)
Lemma dispatch_invalid (w1 : world) (r : nat) (f : Flight) (data v : json) :
  heap w1 !! r = Some f ->
  subscript data "flights_invalid" = Ok v -> truthy v = true ->
  dispatch utc_offset r data w1 =
  search_flight utc_offset (fly_from f) (fly_to f) (dep_date f) (arr_date f)
    (with_heap (<[r := set_is_valid false f]> (heap w1)) w1).
Proof.
  intros Hr Hv Ht. unfold dispatch.
  unfold bind at 1. unfold lift. rewrite Hv, Ht.
  unfold bind at 1. unfold mutate, modify. rewrite Hr.
  unfold bind at 1. unfold deref. cbn [heap with_heap].
  rewrite list_lookup_insert_eq by (eapply lookup_lt_Some; eauto).
  reflexivity.
Qed.

Lemma dispatch_price_change (w1 : world) (r : nat) (f : Flight)
    (data v c : json) (t : Z) :
  heap w1 !! r = Some f ->
  subscript data "flights_invalid" = Ok v -> truthy v = false ->
  subscript data "price_change" = Ok c -> truthy c = true ->
  subscript data "total" = Ok (JNum t) ->
  dispatch utc_offset r data w1 =
  (with_heap (<[r := set_price t f]> (heap w1)) w1, Ok tt).
Proof.
  intros Hr Hv Ht Hc Htc Htot. unfold dispatch.
  unfold bind at 1. unfold lift. rewrite Hv, Ht.
  unfold bind at 1. rewrite Hc, Htc.
  unfold bind at 1. rewrite Htot. cbn [obind as_num].
  unfold mutate, modify. now rewrite Hr.
Qed.

Lemma dispatch_unchanged (w1 : world) (r : nat) (data v c : json) :
  subscript data "flights_invalid" = Ok v -> truthy v = false ->
  subscript data "price_change" = Ok c -> truthy c = false ->
  dispatch utc_offset r data w1 = (w1, Ok tt).
Proof.
  intros Hv Ht Hc Htc. unfold dispatch.
  unfold bind at 1. unfold lift. rewrite Hv, Ht.
  unfold bind at 1. now rewrite Hc, Htc.
Qed.

(** Neither invalid nor a price change, be it that [price_change] is falsy or
    that the response has no such key: the state is left as it is. *)
Lemma dispatch_no_change (w1 : world) (r : nat) (data v : json) :
  subscript data "flights_invalid" = Ok v -> truthy v = false ->
  (forall c, subscript data "price_change" = Ok c -> truthy c = false) ->
  fst (dispatch utc_offset r data w1) = w1.
Proof.
  intros Hv Ht Hc. unfold dispatch, bind, lift.
  rewrite Hv. cbv beta iota. rewrite Ht.
  destruct (subscript data "price_change") as [c|e|]; try reflexivity.
  now rewrite (Hc c eq_refl).
Qed.

(** When the response is not marked invalid, nothing is searched and only
    the object at [r] can change. *)
Lemma dispatch_valid_frame (w1 : world) (r : nat) (data v : json) :
  subscript data "flights_invalid" = Ok v -> truthy v = false ->
  let w' := fst (dispatch utc_offset r data w1) in
  trace w' = trace w1 /\ flights w' = flights w1 /\
  forall r', r' <> r -> heap w' !! r' = heap w1 !! r'.
Proof.
  intros Hv Ht. unfold dispatch, bind, lift.
  rewrite Hv. cbv beta iota. rewrite Ht.
  destruct (subscript data "price_change") as [c|e|]; simpl; auto.
  destruct (truthy c); simpl; auto.
  destruct (subscript data "total") as [t|e|]; simpl; auto.
  destruct t; simpl; auto.
  unfold mutate, modify.
  destruct (heap w1 !! r) as [old|] eqn:Hr; simpl; auto.
  split_ands; auto. intros r' Hne. now apply list_lookup_insert_ne.
Qed.

Lemma check_flight_invalid (w : world) (r : nat) (f : Flight)
    (pre : list fetch_outcome) (data : json) (rest : list fetch_outcome)
    (v : json) :
  heap w !! r = Some f ->
  forallb unchecked pre = true ->
  checked data = true ->
  net w = pre ++ FetchBody data :: rest ->
  subscript data "flights_invalid" = Ok v -> truthy v = true ->
  let w1 := after_loop f pre rest w in
  let w' := fst (check_flight utc_offset r w) in
  check_flight utc_offset r w =
    search_flight utc_offset (fly_from f) (fly_to f) (dep_date f) (arr_date f)
      (with_heap (<[r := set_is_valid false f]> (heap w)) w1) /\
  heap w' !! r = Some (set_is_valid false f) /\
  trace w' = trace w1 ++
    [EvSearch (fly_from f) (fly_to f) (dep_date f) (arr_date f);
     EvRequest (SEARCH_FLIGHT_URL (fly_from f) (fly_to f) (dep_date f) (arr_date f))].
Proof.
  intros Hr Hpre Hd Hnet Hv Ht w1 w'.
  assert (Hr1 : heap w1 !! r = Some f) by exact Hr.
  assert (Heq : check_flight utc_offset r w =
    search_flight utc_offset (fly_from f) (fly_to f) (dep_date f) (arr_date f)
      (with_heap (<[r := set_is_valid false f]> (heap w)) w1)).
  { rewrite (check_flight_after_loop w r f pre data rest Hr Hpre Hd Hnet).
    apply (dispatch_invalid _ r f data v Hr1 Hv Ht). }
  split; [exact Heq|]. subst w'. rewrite Heq.
  destruct (search_flight_frame (fly_from f) (fly_to f) (dep_date f) (arr_date f)
              (with_heap (<[r := set_is_valid false f]> (heap w)) w1))
    as (Htr & _ & _ & _ & _ & added & Hh).
  split; [|exact Htr].
  rewrite Hh. cbn [heap with_heap].
  assert (Hlt : (r < length (heap w))%nat) by (eapply lookup_lt_Some; eauto).
  rewrite lookup_app_l by now rewrite length_insert.
  now apply list_lookup_insert_eq.
Qed.

(** ** The claims about [check_flight] *)

(** C5. A check fetch that fails with an [aiohttp.ClientError] ends the retry
    loop, and [check_flight], with [TypeError]: the counter is not
    incremented and nothing is slept for that round. Before it, [n] unchecked
    answers have been followed by sleeps of [DELAY_TIME * 1], ...,
    [DELAY_TIME * n]. *)
Theorem check_flight_failed_fetch_raises
    (w : world) (r : nat) (f : Flight) (pre rest : list fetch_outcome) :
  heap w !! r = Some f ->
  forallb unchecked pre = true ->
  net w = pre ++ FetchClientError :: rest ->
  let url := CHECK_FLIGHT_URL (booking_token f) in
  let w' := logs (backoff url 0 (length pre) ++ last_round url) (with_net rest w) in
  check_flight utc_offset r w = (w', Raise TypeError) /\
  sleeps (trace w') =
    sleeps (trace w) ++ map (fun i => DELAY_TIME * Z.of_nat i) (seq 1 (length pre)).
Proof.
  intros Hr Hpre Hnet url w'. split.
  - apply (check_flight_absent w r f pre rest Hr Hpre Hnet).
  - subst w'. cbn [trace logs with_net].
    rewrite !sleeps_app, sleeps_backoff. cbn [last_round sleeps omap].
    rewrite app_nil_r. f_equal.
Qed.

(** C6. Once a checked response [data] has ended the loop: if it marks the
    flight invalid, the object gets [is_valid = False], its other fields
    staying, and [search_flight] is called once, for the flight's route and
    dates; otherwise, if it reports a price change, the price of the object
    becomes the response's [total], its other fields staying; if neither (no
    truthy [price_change], or none at all), the object and the rest of the
    state stay as the loop left them. *)
Theorem check_flight_dispatch
    (w : world) (r : nat) (f : Flight)
    (pre : list fetch_outcome) (data : json) (rest : list fetch_outcome) :
  heap w !! r = Some f ->
  forallb unchecked pre = true ->
  checked data = true ->
  net w = pre ++ FetchBody data :: rest ->
  let w1 := after_loop f pre rest w in
  let w' := fst (check_flight utc_offset r w) in
  (forall v, subscript data "flights_invalid" = Ok v -> truthy v = true ->
     heap w' !! r = Some (mkFlight false (booking_token f) (fly_from f) (fly_to f) (price f)
                 (dep_time f) (arr_time f)) /\
     searches (trace w') =
       searches (trace w) ++ [(fly_from f, fly_to f, dep_date f, arr_date f)]) /\
  (forall v c t,
     subscript data "flights_invalid" = Ok v -> truthy v = false ->
     subscript data "price_change" = Ok c -> truthy c = true ->
     subscript data "total" = Ok (JNum t) ->
     check_flight utc_offset r w =
       (with_heap (<[r := mkFlight (is_valid f) (booking_token f) (fly_from f) (fly_to f) t
                 (dep_time f) (arr_time f)]> (heap w)) w1, Ok tt) /\
     heap w' !! r = Some (mkFlight (is_valid f) (booking_token f) (fly_from f) (fly_to f) t
                 (dep_time f) (arr_time f)) /\
     searches (trace w') = searches (trace w)) /\
  (forall v,
     subscript data "flights_invalid" = Ok v -> truthy v = false ->
     (forall c, subscript data "price_change" = Ok c -> truthy c = false) ->
     w' = w1 /\ heap w' = heap w /\ heap w' !! r = Some f /\
     searches (trace w') = searches (trace w) /\
     (forall c, subscript data "price_change" = Ok c ->
                check_flight utc_offset r w = (w1, Ok tt))).
Proof.
  intros Hr Hpre Hd Hnet w1 w'.
  pose proof (check_flight_after_loop w r f pre data rest Hr Hpre Hd Hnet) as Hloop.
  destruct (after_loop_frame f pre rest w) as (Hh1 & _ & _ & _ & Hs1 & _).
  fold w1 in Hloop, Hh1, Hs1.
  assert (Hr1 : heap w1 !! r = Some f) by now rewrite Hh1.
  split; [|split].
  - intros v Hv Ht.
    destruct (check_flight_invalid w r f pre data rest v Hr Hpre Hd Hnet Hv Ht)
      as (_ & Hobj & Htr).
    split; [exact Hobj|]. subst w'. rewrite Htr.
    fold w1. rewrite searches_app, Hs1. reflexivity.
  - intros v c t Hv Ht Hc Htc Htot.
    assert (Heq : check_flight utc_offset r w =
              (with_heap (<[r := set_price t f]> (heap w)) w1, Ok tt)).
    { rewrite Hloop, <- Hh1.
      apply (dispatch_price_change w1 r f data v c t Hr1 Hv Ht Hc Htc Htot). }
    split; [exact Heq|]. subst w'. rewrite Heq. cbn [fst heap with_heap trace].
    split; [|exact Hs1].
    apply list_lookup_insert_eq. eapply lookup_lt_Some; eauto.
  - intros v Hv Ht Hc.
    assert (Heq : w' = w1).
    { subst w'. rewrite Hloop. apply (dispatch_no_change w1 r data v Hv Ht Hc). }
    rewrite Heq. split_ands; auto.
    intros c Hpc. rewrite Hloop.
    apply (dispatch_unchanged w1 r data v c Hv Ht Hpc (Hc c Hpc)).
Qed.

(** C9. When the checked response marks the flight invalid, the object keeps
    its price and every other field but [is_valid], whatever [price_change]
    and [total] the response carries; and an object whose price has changed
    tells that the response did not mark the flight invalid. *)
Theorem check_flight_invalid_precedence
    (w : world) (r : nat) (f : Flight)
    (pre : list fetch_outcome) (data : json) (rest : list fetch_outcome) :
  heap w !! r = Some f ->
  forallb unchecked pre = true ->
  checked data = true ->
  net w = pre ++ FetchBody data :: rest ->
  let w' := fst (check_flight utc_offset r w) in
  (forall v, subscript data "flights_invalid" = Ok v -> truthy v = true ->
     heap w' !! r = Some (set_is_valid false f) /\
     forall f', heap w' !! r = Some f' ->
       price f' = price f /\ booking_token f' = booking_token f /\
       fly_from f' = fly_from f /\ fly_to f' = fly_to f /\
       dep_time f' = dep_time f /\ arr_time f' = arr_time f /\
       is_valid f' = false) /\
  (forall f', heap w' !! r = Some f' -> price f' <> price f ->
     exists v, subscript data "flights_invalid" = Ok v /\ truthy v = false).
Proof.
  intros Hr Hpre Hd Hnet w'.
  assert (Hinv : forall v, subscript data "flights_invalid" = Ok v ->
            truthy v = true -> heap w' !! r = Some (set_is_valid false f)).
  { intros v Hv Ht.
    now destruct (check_flight_invalid w r f pre data rest v Hr Hpre Hd Hnet Hv Ht)
      as (_ & Hobj & _). }
  split.
  - intros v Hv Ht. split; [now apply (Hinv v)|].
    intros f' Hf'. rewrite (Hinv v Hv Ht) in Hf'.
    injection Hf' as <-. now split_ands.
  - intros f' Hf' Hprice.
    destruct (subscript data "flights_invalid") as [v|e|] eqn:Hv.
    + destruct (truthy v) eqn:Ht; [|now exists v].
      rewrite (Hinv v eq_refl Ht) in Hf'. injection Hf' as <-.
      now contradiction Hprice.
    + exfalso. subst w'.
      rewrite (check_flight_after_loop w r f pre data rest Hr Hpre Hd Hnet) in Hf'.
      unfold dispatch, bind, lift in Hf'. rewrite Hv in Hf'.
      cbn [fst] in Hf'.
      destruct (after_loop_frame f pre rest w) as (Hh1 & _).
      rewrite Hh1, Hr in Hf'. injection Hf' as <-. now contradiction Hprice.
    + exfalso. unfold subscript in Hv.
      destruct data; try discriminate. destruct (assoc_get _ _); discriminate.
Qed.

(** C10. The search that follows an invalid answer is called with the
    flight's own dates, [dep_date] as [date_from] and [arr_date] as
    [date_to], both of the form dd/mm/yyyy, whatever window [df], [dt] the
    crawler has stored; its request carries them. *)
Theorem check_flight_research_window
    (w : world) (r : nat) (f : Flight)
    (pre : list fetch_outcome) (data : json) (rest : list fetch_outcome)
    (v : json) (df dt : string) :
  heap w !! r = Some f ->
  forallb unchecked pre = true ->
  checked data = true ->
  net w = pre ++ FetchBody data :: rest ->
  subscript data "flights_invalid" = Ok v -> truthy v = true ->
  let w0 := with_dates df dt w in
  let w' := fst (check_flight utc_offset r w0) in
  trace w' = trace (after_loop f pre rest w0) ++
    [EvSearch (fly_from f) (fly_to f) (dep_date f) (arr_date f);
     EvRequest (SEARCH_FLIGHT_URL (fly_from f) (fly_to f) (dep_date f) (arr_date f))] /\
  date_from w' = df /\ date_to w' = dt /\
  dep_date f = pad2 (day (dt_date (dep_time f))) +:+ "/" +:+
               pad2 (month (dt_date (dep_time f))) +:+ "/" +:+
               pad4 (year (dt_date (dep_time f))) /\
  arr_date f = pad2 (day (dt_date (arr_time f))) +:+ "/" +:+
               pad2 (month (dt_date (arr_time f))) +:+ "/" +:+
               pad4 (year (dt_date (arr_time f))) /\
  String.length (dep_date f) = 10%nat /\ String.length (arr_date f) = 10%nat.
Proof.
  intros Hr Hpre Hd Hnet Hv Ht w0 w'.
  assert (Hr0 : heap w0 !! r = Some f) by exact Hr.
  assert (Hnet0 : net w0 = pre ++ FetchBody data :: rest) by exact Hnet.
  destruct (check_flight_invalid w0 r f pre data rest v Hr0 Hpre Hd Hnet0 Hv Ht)
    as (Heq & _ & Htr).
  split; [exact Htr|].
  subst w'. rewrite Heq.
  destruct (search_flight_frame (fly_from f) (fly_to f) (dep_date f) (arr_date f)
              (with_heap (<[r := set_is_valid false f]> (heap w0))
                         (after_loop f pre rest w0)))
    as (_ & _ & _ & Hdf & Hdt & _).
  rewrite Hdf, Hdt. split_ands; reflexivity.
Qed.

(** ** The fan-outs and the passes *)

Lemma gather_first_raise (tasks : list (M unit)) :
  forall (w : world) (e : exn),
    first_raise (outcomes tasks w) = Some e -> snd (gather tasks w) = Raise e.
Proof.
  induction tasks as [|t ts IH]; intros w e; simpl; [discriminate|].
  destruct (t w) as [w1 r1]. specialize (IH w1 e).
  destruct (gather ts w1) as [w2 r2]. simpl in *.
  destruct r1 as [[]|e1|]; simpl.
  - intros H. now rewrite (IH H).
  - now intros [= ->].
  - intros H. now rewrite (IH H).
Qed.

Lemma outcomes_length (tasks : list (M unit)) :
  forall w, length (outcomes tasks w) = length tasks.
Proof.
  induction tasks as [|t ts IH]; intros w; simpl; [reflexivity|].
  destruct (t w) as [w1 r1]. simpl. now rewrite IH.
Qed.

Lemma gather_no_write (tasks : list (M unit)) :
  Forall no_write tasks -> no_write (gather tasks).
Proof.
  induction 1 as [|t ts Ht Hts IH]; intros w; simpl; [auto|].
  destruct (Ht w) as [Ho Hw]. destruct (t w) as [w1 r1].
  destruct (IH w1) as [Ho' Hw']. destruct (gather ts w1) as [w2 r2].
  simpl in *. split; congruence.
Qed.

Lemma search_flight_no_write (a b c d : string) :
  no_write (search_flight utc_offset a b c d).
Proof.
  intros w. destruct (search_flight_frame a b c d w) as (Ht & _ & Ho & _).
  split; [exact Ho|]. rewrite Ht, writes_app. simpl. now rewrite app_nil_r.
Qed.

(** The loop of [check_flight] changes nothing but the network and the
    trace, to which it adds neither a search nor a file write. *)
Lemma check_loop_frame (url : string) (fuel : nat) :
  forall (k : Z) (w : world),
    let w' := fst (check_loop fuel url k w) in
    heap w' = heap w /\ flights w' = flights w /\
    output_file w' = output_file w /\
    writes (trace w') = writes (trace w) /\
    searches (trace w') = searches (trace w).
Proof.
  induction fuel as [|fuel IH]; intros k w; [simpl; auto|].
  destruct (net w) as [|o rest] eqn:Hnet.
  - rewrite check_loop_blocked by exact Hnet. simpl. split_ands; auto.
    + rewrite writes_app. simpl. now rewrite app_nil_r.
    + rewrite searches_app. simpl. now rewrite app_nil_r.
  - rewrite (check_loop_step fuel url k w o rest Hnet).
    set (w1 := logs [EvAcquire; EvRequest url; EvRelease] (with_net rest w)).
    assert (H1 : heap w1 = heap w /\ flights w1 = flights w /\
                 output_file w1 = output_file w /\
                 writes (trace w1) = writes (trace w) /\
                 searches (trace w1) = searches (trace w)).
    { subst w1; simpl. split_ands; auto.
      - rewrite writes_app. simpl. now rewrite app_nil_r.
      - rewrite searches_app. simpl. now rewrite app_nil_r. }
    destruct o as [data| |e]; try exact H1.
    destruct (subscript data "flights_checked") as [c|e|]; try exact H1.
    destruct (truthy c); try exact H1.
    destruct H1 as (Hh & Hf & Ho & Hw & Hs).
    destruct (IH (k + 1) (logs [EvSleep (DELAY_TIME * (k + 1))] w1))
      as (Hh' & Hf' & Ho' & Hw' & Hs').
    simpl in *. split_ands; try congruence.
    + rewrite Hw', writes_app. simpl. now rewrite app_nil_r.
    + rewrite Hs', searches_app. simpl. now rewrite app_nil_r.
Qed.

Lemma dispatch_no_write (r : nat) (data : json) :
  no_write (dispatch utc_offset r data).
Proof.
  intros w. unfold dispatch, bind, lift.
  destruct (subscript data "flights_invalid") as [v|e|]; simpl; auto.
  destruct (truthy v).
  - unfold mutate, modify, deref.
    set (w2 := match heap w !! r with
               | Some old => with_heap (<[r:=set_is_valid false old]> (heap w)) w
               | None => w
               end).
    assert (H2 : output_file w2 = output_file w /\ trace w2 = trace w)
      by (subst w2; destruct (heap w !! r); auto).
    destruct H2 as [Ho Ht].
    destruct (heap w2 !! r) as [f|]; simpl; [|now rewrite Ht].
    destruct (search_flight_no_write (fly_from f) (fly_to f) (dep_date f)
                (arr_date f) w2) as [Ho' Hw'].
    split; congruence.
  - destruct (subscript data "price_change") as [c|e|]; simpl; auto.
    destruct (truthy c); simpl; auto.
    destruct (subscript data "total") as [t|e|]; simpl; auto.
    destruct t; simpl; auto.
    unfold mutate, modify. destruct (heap w !! r); simpl; auto.
Qed.

Lemma check_flight_no_write (r : nat) : no_write (check_flight utc_offset r).
Proof.
  intros w. unfold check_flight, bind, deref.
  destruct (heap w !! r) as [f|]; [|cbn [fst]; auto].
  destruct (check_loop_frame (CHECK_FLIGHT_URL (booking_token f))
              (S (length (net w))) 0 w) as (_ & _ & Ho & Hw & _).
  destruct (check_loop (S (length (net w))) (CHECK_FLIGHT_URL (booking_token f)) 0 w)
    as [w1 [[data k]|e|]]; cbn [fst snd] in *; auto.
  destruct (dispatch_no_write r data w1) as [Ho' Hw'].
  split; congruence.
Qed.

Lemma check_tasks_no_write (w : world) : Forall no_write (check_tasks utc_offset w).
Proof.
  unfold check_tasks. apply Forall_map, Forall_forall.
  intros kv _. apply check_flight_no_write.
Qed.

Lemma search_tasks_no_write (df dt : string) :
  Forall no_write (search_tasks utc_offset df dt).
Proof.
  unfold search_tasks. apply Forall_map, Forall_forall.
  intros dir _. apply search_flight_no_write.
Qed.

Lemma search_tasks_in_no_write (dirs : list (string * string)) (df dt : string) :
  Forall no_write (search_tasks_in utc_offset dirs df dt).
Proof.
  unfold search_tasks_in. apply Forall_map, Forall_forall.
  intros dir _. apply search_flight_no_write.
Qed.

Lemma search_pass_in_configured (today : date) :
  search_pass_in utc_offset FLIGHT_DIRECTIONS today = search_pass utc_offset today.
Proof. reflexivity. Qed.

(** A daily pass one of whose searches raises ends with the first exception
    raised, before its file write, in whatever order the responses arrive. *)
Lemma search_pass_in_raises
    (dirs : list (string * string)) (today : date) (w : world)
    (df dt : string) (e : exn) :
  get_date_range today = Ok (df, dt) ->
  first_raise (outcomes (search_tasks_in utc_offset dirs df dt)
                 (with_dates df dt (with_flights [] w))) = Some e ->
  snd (search_pass_in utc_offset dirs today w) = Raise e /\
  output_file (fst (search_pass_in utc_offset dirs today w)) = output_file w /\
  writes (trace (fst (search_pass_in utc_offset dirs today w))) = writes (trace w).
Proof.
  intros Hrange He.
  unfold search_pass_in, bind, modify, lift. rewrite Hrange. cbn [fst snd].
  pose proof (gather_first_raise _ _ e He) as Hg.
  destruct (gather_no_write _ (search_tasks_in_no_write dirs df dt)
              (with_dates df dt (with_flights [] w))) as [Ho Hw].
  destruct (gather (search_tasks_in utc_offset dirs df dt) _) as [w1 r1].
  cbn [fst snd] in *. subst r1. cbn [fst snd]. now split_ands.
Qed.

(** C3. When a task of a fan-out raises, [gather] raises the first exception
    raised and the pass ends with it before its file write: the pass raises,
    the file keeps the content it had and no write is made. This holds of a
    validation pass, of a daily pass, and of a daily pass whose responses
    arrive in any order. *)
Theorem pass_raises_when_task_raises :
  (forall (w : world) (e : exn),
     first_raise (outcomes (check_tasks utc_offset w) w) = Some e ->
     snd (check_pass utc_offset w) = Raise e /\
     output_file (fst (check_pass utc_offset w)) = output_file w /\
     writes (trace (fst (check_pass utc_offset w))) = writes (trace w)) /\
  (forall (today : date) (w : world) (df dt : string) (e : exn),
     get_date_range today = Ok (df, dt) ->
     first_raise (outcomes (search_tasks utc_offset df dt)
                    (with_dates df dt (with_flights [] w))) = Some e ->
     snd (search_pass utc_offset today w) = Raise e /\
     output_file (fst (search_pass utc_offset today w)) = output_file w /\
     writes (trace (fst (search_pass utc_offset today w))) = writes (trace w)) /\
  (forall (dirs : list (string * string)) (today : date) (w : world)
          (df dt : string) (e : exn),
     get_date_range today = Ok (df, dt) ->
     first_raise (outcomes (search_tasks_in utc_offset dirs df dt)
                    (with_dates df dt (with_flights [] w))) = Some e ->
     snd (search_pass_in utc_offset dirs today w) = Raise e /\
     output_file (fst (search_pass_in utc_offset dirs today w)) = output_file w /\
     writes (trace (fst (search_pass_in utc_offset dirs today w)))
       = writes (trace w)).
Proof.
  split_ands.
  - intros w e He.
    unfold check_pass, bind. cbn [fst snd].
    pose proof (gather_first_raise _ w e He) as Hg.
    destruct (gather_no_write _ (check_tasks_no_write w) w) as [Ho Hw].
    destruct (gather (check_tasks utc_offset w) w) as [w1 r1].
    cbn [fst snd] in *. subst r1. cbn [fst snd]. now split_ands.
  - intros today w df dt e Hrange He.
    rewrite <- search_pass_in_configured.
    now apply (search_pass_in_raises FLIGHT_DIRECTIONS today w df dt e).
  - intros dirs today w df dt e Hrange He.
    now apply (search_pass_in_raises dirs today w df dt e).
Qed.

(** ** Determinism of the daily pass *)

Lemma assoc_get_map {A B} (g : A -> B) (k : string) (l : list (string * A)) :
  assoc_get k (map (fun kv => (fst kv, g (snd kv))) l) = g <$> assoc_get k l.
Proof.
  induction l as [|[k' v] l IH]; simpl; [reflexivity|].
  now destruct (String.eqb k k').
Qed.

Lemma dict_set_map {A B} (g : A -> B) (k : string) (v : A) (l : list (string * A)) :
  map (fun kv => (fst kv, g (snd kv))) (dict_set k v l) =
  dict_set k (g v) (map (fun kv => (fst kv, g (snd kv))) l).
Proof.
  induction l as [|[k' v'] l IH]; simpl; [reflexivity|].
  destruct (String.eqb k k'); simpl; [reflexivity|]. now rewrite IH.
Qed.

Lemma Forall_dict_set {A} (P : string * A -> Prop) (k : string) (v : A)
    (l : list (string * A)) :
  Forall P l -> P (k, v) -> Forall P (dict_set k v l).
Proof.
  intros Hl Hkv. induction Hl as [|[k' v'] l Hx Hl IH]; simpl.
  - now constructor.
  - destruct (String.eqb k k'); constructor; auto.
Qed.

Lemma stored_snapshot (w : world) (key : string) :
  stored w key = match assoc_get key (snapshot w) with
                 | Some o => o
                 | None => None
                 end.
Proof.
  unfold stored, snapshot.
  rewrite (assoc_get_map (fun r => heap w !! r)).
  now destruct (assoc_get key (flights w)).
Qed.

Lemma values_snapshot (w : world) : values w = omap snd (snapshot w).
Proof.
  unfold values, snapshot. generalize (heap w) as h.
  intros h. induction (flights w) as [|[k r] l IH]; [reflexivity|].
  simpl in *. destruct (h !! r); [f_equal|]; exact IH.
Qed.

Lemma snapshot_assign_flight (w : world) (key : string) (flight : Flight) :
  live w ->
  snapshot (assign_flight key flight w) = dict_set key (Some flight) (snapshot w).
Proof.
  intros Hlive. unfold snapshot, assign_flight. cbn [heap flights with_flights with_heap].
  rewrite (dict_set_map (fun r => (heap w ++ [flight]) !! r)).
  rewrite list_lookup_middle by reflexivity. f_equal.
  apply map_ext_in. intros [k r] Hin. cbn [fst snd]. f_equal.
  unfold live in Hlive. rewrite Forall_forall in Hlive.
  apply lookup_app_l. apply (Hlive (k, r)). now apply list_elem_of_In.
Qed.

Lemma live_assign_flight (w : world) (key : string) (flight : Flight) :
  live w -> live (assign_flight key flight w).
Proof.
  unfold live, assign_flight. cbn [heap flights with_flights with_heap].
  intros Hlive. apply Forall_dict_set.
  - eapply Forall_impl; [exact Hlive|]. intros [k r]; simpl.
    rewrite length_app; simpl. lia.
  - simpl. rewrite length_app; simpl. lia.
Qed.

Lemma same_store_store_flight (flight : Flight) (w w' : world) :
  same_store w w' -> same_store (store_flight flight w) (store_flight flight w').
Proof.
  intros (Hs & Hn & Hl & Hl'). unfold store_flight.
  assert (Hk : keeps_stored w (flight_key flight) flight =
               keeps_stored w' (flight_key flight) flight).
  { unfold keeps_stored. now rewrite !stored_snapshot, Hs. }
  rewrite <- Hk. unfold same_store. destruct (keeps_stored w _ _).
  - now split_ands.
  - split_ands.
    + rewrite !snapshot_assign_flight by assumption. now rewrite Hs.
    + exact Hn.
    + now apply live_assign_flight.
    + now apply live_assign_flight.
Qed.

(** Storing a candidate leaves the flights stored under the other keys. *)
Lemma store_flight_other_key (flight : Flight) (w : world) (key : string) :
  live w -> key <> flight_key flight ->
  stored (store_flight flight w) key = stored w key.
Proof.
  intros Hlive Hne. unfold store_flight.
  destruct (keeps_stored w _ _); [reflexivity|].
  rewrite !stored_snapshot, snapshot_assign_flight by exact Hlive.
  now rewrite assoc_get_dict_set_ne by congruence.
Qed.

Lemma respects_search_loop (entries : list json) :
  respects (search_loop utc_offset entries).
Proof.
  induction entries as [|json_data rest IH]; intros w w' Hsim; simpl.
  - now split.
  - unfold bind, lift, modify.
    destruct (Flight_init utc_offset json_data) as [flight|e|]; simpl; auto.
    apply IH. now apply same_store_store_flight.
Qed.

Lemma same_store_logs (es es' : list event) (rest : list fetch_outcome)
    (w w' : world) :
  same_store w w' ->
  same_store (logs es (with_net rest w)) (logs es' (with_net rest w')).
Proof. intros (Hs & Hn & Hl & Hl'). unfold same_store. now split_ands. Qed.

Lemma respects_search_flight (a b c d : string) :
  respects (search_flight utc_offset a b c d).
Proof.
  intros w w' Hsim. pose proof Hsim as (Hs & Hn & Hl & Hl').
  destruct (net w) as [|o rest] eqn:Hnet.
  - rewrite !search_flight_blocked by congruence.
    split; [reflexivity|]. unfold same_store; simpl. split_ands; auto.
    congruence.
  - rewrite (search_flight_step a b c d w o rest Hnet).
    rewrite (search_flight_step a b c d w' o rest) by congruence.
    pose proof (same_store_logs
                  [EvSearch a b c d; EvRequest (SEARCH_FLIGHT_URL a b c d)]
                  [EvSearch a b c d; EvRequest (SEARCH_FLIGHT_URL a b c d)]
                  rest w w' Hsim) as Hsim1.
    destruct o as [response_data| |e]; simpl; auto.
    destruct (subscript response_data "data") as [data|e|]; simpl; auto.
    destruct (py_iter data) as [entries|e|]; simpl; auto.
    now apply respects_search_loop.
Qed.

Lemma respects_gather (tasks : list (M unit)) :
  Forall respects tasks -> respects (gather tasks).
Proof.
  induction 1 as [|t ts Ht Hts IH]; intros w w' Hsim; simpl; [now split|].
  destruct (Ht w w' Hsim) as [Hr Hsim1].
  destruct (t w) as [w1 r1], (t w') as [w1' r1']. simpl in Hr, Hsim1.
  destruct (IH w1 w1' Hsim1) as [Hr2 Hsim2].
  destruct (gather ts w1) as [w2 r2], (gather ts w1') as [w2' r2'].
  simpl in *. split; congruence.
Qed.

Lemma search_tasks_in_respect (dirs : list (string * string)) (df dt : string) :
  Forall respects (search_tasks_in utc_offset dirs df dt).
Proof.
  unfold search_tasks_in. apply Forall_map, Forall_forall.
  intros dir _. apply respects_search_flight.
Qed.

(** The outcome of a daily pass and the dict it leaves depend on the day, on
    the exchanges to come and on the order in which the responses arrive, not
    on the state the pass starts from; so does the file when the pass reaches
    its write. *)
Lemma search_pass_in_deterministic
    (dirs : list (string * string)) (today : date) (w w' : world) :
  net w = net w' ->
  let res := search_pass_in utc_offset dirs today w in
  let res' := search_pass_in utc_offset dirs today w' in
  snd res = snd res' /\
  snapshot (fst res) = snapshot (fst res') /\
  (snd res = Ok tt -> output_file (fst res) = output_file (fst res')).
Proof.
  intros Hnet. unfold search_pass_in, bind, modify, lift.
  destruct (get_date_range today) as [[df dt]|e|]; cbn [fst snd].
  2, 3: split_ands; auto; discriminate.
  assert (Hsim : same_store (with_dates df dt (with_flights [] w))
                            (with_dates df dt (with_flights [] w'))).
  { unfold same_store. split_ands; auto; constructor. }
  destruct (respects_gather _ (search_tasks_in_respect dirs df dt) _ _ Hsim)
    as [Hr Hsim1].
  destruct (gather _ (with_dates df dt (with_flights [] w))) as [w1 r1].
  destruct (gather _ (with_dates df dt (with_flights [] w'))) as [w1' r1'].
  cbn [fst snd] in *. subst r1'. destruct Hsim1 as (Hs & _).
  destruct r1 as [[]|e|]; cbn [fst snd]; split_ands; auto; try discriminate.
  intros _. unfold write_to_file, modify. cbn [fst output_file log with_output_file].
  now rewrite !values_snapshot, Hs.
Qed.

(** A daily pass that does not end normally has not written the file. *)
Lemma search_pass_in_not_ok
    (dirs : list (string * string)) (today : date) (w : world) :
  snd (search_pass_in utc_offset dirs today w) <> Ok tt ->
  output_file (fst (search_pass_in utc_offset dirs today w)) = output_file w.
Proof.
  unfold search_pass_in, bind, modify, lift.
  destruct (get_date_range today) as [[df dt]|e|]; cbn [fst snd]; auto.
  destruct (gather_no_write _ (search_tasks_in_no_write dirs df dt)
              (with_dates df dt (with_flights [] w))) as [Ho _].
  destruct (gather _ (with_dates df dt (with_flights [] w))) as [w1 r1].
  destruct r1 as [[]|e|]; cbn [fst snd] in *; auto.
  intros H. now contradiction H.
Qed.

Lemma search_pass_in_again
    (dirs : list (string * string)) (today : date) (w : world) :
  let run1 := search_pass_in utc_offset dirs today w in
  let run2 := search_pass_in utc_offset dirs today
                (with_net (net w) (fst run1)) in
  snd run2 = snd run1 /\
  snapshot (fst run2) = snapshot (fst run1) /\
  output_file (fst run2) = output_file (fst run1).
Proof.
  cbv zeta.
  destruct (search_pass_in_deterministic dirs today w
              (with_net (net w) (fst (search_pass_in utc_offset dirs today w))))
    as (Hr & Hs & Ho); [reflexivity|].
  cbv zeta in Hr, Hs, Ho.
  split_ands; auto.
  destruct (snd (search_pass_in utc_offset dirs today w)) as [[]|e|] eqn:E1.
  - symmetry. now apply Ho.
  - rewrite search_pass_in_not_ok; [reflexivity|]. rewrite <- Hr. discriminate.
  - rewrite search_pass_in_not_ok; [reflexivity|]. rewrite <- Hr. discriminate.
Qed.

(** C8. A daily pass run again on the state the first run left, against the
    same exchanges, with the responses arriving in the same order in both
    runs, ends the same way and leaves the same dict content, key for key in
    the same order and field for field, and the same file content. This holds
    of the order of the configured directions and of every other order
    [dirs]. *)
Theorem search_pass_idempotent :
  (forall (today : date) (w : world),
     let run1 := search_pass utc_offset today w in
     let run2 := search_pass utc_offset today (with_net (net w) (fst run1)) in
     snd run2 = snd run1 /\
     snapshot (fst run2) = snapshot (fst run1) /\
     output_file (fst run2) = output_file (fst run1)) /\
  (forall (dirs : list (string * string)) (today : date) (w : world),
     let run1 := search_pass_in utc_offset dirs today w in
     let run2 := search_pass_in utc_offset dirs today
                   (with_net (net w) (fst run1)) in
     snd run2 = snd run1 /\
     snapshot (fst run2) = snapshot (fst run1) /\
     output_file (fst run2) = output_file (fst run1)).
Proof.
  split.
  - intros today w. rewrite <- !search_pass_in_configured.
    apply (search_pass_in_again FLIGHT_DIRECTIONS today w).
  - intros dirs today w. apply (search_pass_in_again dirs today w).
Qed.

End CrawlerProperties.

(** ** The statements on sample data *)

(** One unchecked answer, one sleep of 10 seconds, then a failed fetch:
    [check_flight] raises. *)
Lemma check_flight_failed_fetch_raises_witness :
  snd (check_flight 0 0
         (Sample.holding Sample.flight [Sample.not_checked; FetchClientError]))
    = Raise TypeError /\
  sleeps (trace (fst (check_flight 0 0
         (Sample.holding Sample.flight [Sample.not_checked; FetchClientError]))))
    = [10].
Proof.
  destruct (check_flight_failed_fetch_raises 0
              (Sample.holding Sample.flight [Sample.not_checked; FetchClientError])
              0 Sample.flight [Sample.not_checked] [] eq_refl eq_refl eq_refl)
    as [Heq Hsleeps].
  rewrite Heq. split; [reflexivity|exact Hsleeps].
Defined.

(** A checked answer with a price change to 90. *)
Lemma check_flight_dispatch_witness :
  heap (fst (check_flight 0 0
         (Sample.holding Sample.flight
            [Sample.not_checked; FetchBody Sample.price_changed])))
    !! 0%nat
  = Some (mkFlight true "tok-1" "ALA" "TSE" 90
                   (mkDatetime (mkDate 2026 11 2) 6 13 20)
                   (mkDatetime (mkDate 2026 11 2) 8 13 20)).
Proof.
  destruct (check_flight_dispatch 0
              (Sample.holding Sample.flight
                 [Sample.not_checked; FetchBody Sample.price_changed])
              0 Sample.flight [Sample.not_checked] Sample.price_changed []
              eq_refl eq_refl eq_refl eq_refl) as (_ & Hprice & _).
  destruct (Hprice (JBool false) (JBool true) 90 eq_refl eq_refl eq_refl eq_refl
              eq_refl) as (_ & Hobj & _).
  exact Hobj.
Defined.

(** An answer that is both invalid and a price change to 90: the price stays
    100. *)
Lemma check_flight_invalid_precedence_witness :
  heap (fst (check_flight 0 0
         (Sample.holding Sample.flight [FetchBody Sample.invalid_and_changed])))
    !! 0%nat = Some (set_is_valid false Sample.flight).
Proof.
  destruct (check_flight_invalid_precedence 0
              (Sample.holding Sample.flight [FetchBody Sample.invalid_and_changed])
              0 Sample.flight [] Sample.invalid_and_changed []
              eq_refl eq_refl eq_refl eq_refl) as (Hinvalid & _).
  destruct (Hinvalid (JBool true) eq_refl eq_refl) as (Hobj & _).
  exact Hobj.
Defined.

(** The search after an invalid answer, for a flight of 02/11/2026 held by a
    crawler whose window is 03/11/2026 to 03/12/2026. *)
Lemma check_flight_research_window_witness :
  searches (trace (fst (check_flight 0 0
     (with_dates "03/11/2026" "03/12/2026"
        (Sample.holding Sample.flight [FetchBody Sample.invalid_and_changed])))))
  = [("ALA", "TSE", "02/11/2026", "02/11/2026")].
Proof.
  destruct (check_flight_research_window 0
              (Sample.holding Sample.flight [FetchBody Sample.invalid_and_changed])
              0 Sample.flight [] Sample.invalid_and_changed [] (JBool true)
              "03/11/2026" "03/12/2026"
              eq_refl eq_refl eq_refl eq_refl eq_refl eq_refl) as (Htrace & _).
  cbv zeta in Htrace. rewrite Htrace. reflexivity.
Defined.

(** C8, on [Sample.first_pass] and [Sample.second_pass]: the service answers
    every request alike in the two passes, both passes end normally and hold
    the same two flights, but the responses of the two first directions arrive
    in the other order in the second pass, and the file it writes has its two
    lines exchanged. *)
Lemma search_pass_arrival_order_changes_file :
  Permutation FLIGHT_DIRECTIONS Sample.arrival /\
  snd Sample.first_pass = Ok tt /\
  snd Sample.second_pass = Ok tt /\
  map fst (snapshot (fst Sample.first_pass))
    = ["ALA-TSE-02/11/2026"; "TSE-ALA-02/11/2026"] /\
  map fst (snapshot (fst Sample.second_pass))
    = ["TSE-ALA-02/11/2026"; "ALA-TSE-02/11/2026"] /\
  output_file (fst Sample.first_pass)
    = Sample.line "ALA" "TSE" "100" +:+ Sample.line "TSE" "ALA" "120" /\
  output_file (fst Sample.second_pass)
    = Sample.line "TSE" "ALA" "120" +:+ Sample.line "ALA" "TSE" "100" /\
  output_file (fst Sample.second_pass) <> output_file (fst Sample.first_pass).
Proof.
  split; [apply perm_swap|].
  vm_compute. split_ands; try reflexivity. discriminate.
Qed.

(** C3, on [Sample.one_failure]: the first task of the daily pass raises, and
    the pass ends with [TypeError] without writing the file, which keeps the
    content of the earlier pass. *)
Lemma search_pass_aborted_by_one_failure :
  first_raise (outcomes (search_tasks 0 "03/11/2026" "03/12/2026")
                 (with_dates "03/11/2026" "03/12/2026"
                    (with_flights [] Sample.one_failure))) = Some TypeError /\
  snd (search_pass 0 (mkDate 2026 11 3) Sample.one_failure) = Raise TypeError /\
  writes (trace (fst (search_pass 0 (mkDate 2026 11 3) Sample.one_failure))) = [] /\
  output_file (fst (search_pass 0 (mkDate 2026 11 3) Sample.one_failure)) = "stale".
Proof. vm_compute. split_ands; reflexivity. Qed.

(** The daily pass on [Sample.one_failure] leaves the file as it was. *)
Lemma pass_raises_when_task_raises_witness :
  get_date_range (mkDate 2026 11 3) = Ok ("03/11/2026", "03/12/2026") /\
  output_file (fst (search_pass 0 (mkDate 2026 11 3) Sample.one_failure))
    = output_file Sample.one_failure.
Proof.
  split; [reflexivity|].
  destruct (pass_raises_when_task_raises 0) as (_ & Hsearch & _).
  assert (Hraise : first_raise
            (outcomes (search_tasks 0 "03/11/2026" "03/12/2026")
               (with_dates "03/11/2026" "03/12/2026"
                  (with_flights [] Sample.one_failure))) = Some TypeError)
    by (vm_compute; reflexivity).
  destruct (Hsearch (mkDate 2026 11 3) Sample.one_failure
              "03/11/2026" "03/12/2026" TypeError eq_refl Hraise)
    as (_ & Hfile & _).
  exact Hfile.
Defined.

(** ** A run from search to validation *)

Example civil_from_days_samples :
  civil_from_days 0 = (1970, 1, 1) /\ civil_from_days (-1) = (1969, 12, 31) /\
  civil_from_days 11016 = (2000, 2, 29) /\ civil_from_days 20759 = (2026, 11, 2).
Proof. split_ands; reflexivity. Qed.

Example Flight_init_sample : Flight_init 0 Sample.ala_tse = Ok Sample.flight.
Proof. reflexivity. Qed.

Example Flight_init_local_time :
  dep_time <$> (match Flight_init 21600 Sample.ala_tse with
                | Ok f => Some f
                | _ => None
                end)
  = Some (mkDatetime (mkDate 2026 11 2) 12 13 20).
Proof. reflexivity. Qed.

Example Flight_init_missing_key :
  Flight_init 0 (JObj [("booking_token", JStr "tok-1")])
  = Raise (KeyError "cityCodeFrom").
Proof. reflexivity. Qed.

(** One daily pass writes one line for each of the two flights found; the
    validation pass that follows rewrites the file with the new price of the
    first. *)
Example search_then_check :
  let found := search_pass 0 (mkDate 2026 11 1) Sample.two_flights in
  let checked := check_pass 0 (fst found) in
  snd found = Ok tt /\
  output_file (fst found) =
    Sample.line "ALA" "TSE" "100" +:+ Sample.line "TSE" "ALA" "120" /\
  snd checked = Ok tt /\
  output_file (fst checked) =
    Sample.line "ALA" "TSE" "90" +:+ Sample.line "TSE" "ALA" "120" /\
  sleeps (trace (fst checked)) = [].
Proof. vm_compute. split_ands; reflexivity. Qed.

(** * Further properties *)

(** ** The date window and the sleep until midnight *)

Lemma valid_date_bounds (y m d : Z) :
  valid_date y m d = true <->
  MINYEAR <= y <= MAXYEAR /\ 1 <= m <= 12 /\ 1 <= d <= days_in_month y m.
Proof.
  unfold valid_date. rewrite !andb_true_iff, !Z.leb_le. tauto.
Qed.

Lemma days_in_month_bounds (y m : Z) : 28 <= days_in_month y m <= 31.
Proof.
  unfold days_in_month.
  destruct (m =? 2); [destruct (is_leap y); lia|].
  destruct ((m =? 4) || (m =? 6) || (m =? 9) || (m =? 11)); lia.
Qed.

(** X1. For a date of the calendar, [get_next_month] fails, with
    [ValueError], exactly when the next month has fewer days than the day of
    the month, or when the next month is past year 9999; otherwise it
    returns the same day of the next month. Up to the 28th it never fails
    before year 9999. *)
Theorem get_next_month_raises_iff (cur : date) :
  valid_date (year cur) (month cur) (day cur) = true ->
  let y := if month cur =? 12 then year cur + 1 else year cur in
  let m := if month cur =? 12 then 1 else month cur + 1 in
  (get_next_month cur = Raise ValueError <->
   days_in_month y m < day cur \/ MAXYEAR < y) /\
  (get_next_month cur = Ok (mkDate y m (day cur)) <->
   day cur <= days_in_month y m /\ y <= MAXYEAR) /\
  (day cur <= 28 -> year cur < MAXYEAR ->
   get_next_month cur = Ok (mkDate y m (day cur))).
Proof.
  intros Hvalid y m. apply valid_date_bounds in Hvalid as (Hy & Hm & Hd).
  unfold MINYEAR, MAXYEAR in *.
  assert (Heq : get_next_month cur =
                if valid_date y m (day cur) then Ok (mkDate y m (day cur))
                else Raise ValueError).
  { unfold get_next_month, date_replace, date_new. subst y m.
    now destruct (month cur =? 12). }
  assert (Hm' : 1 <= m <= 12).
  { subst m. destruct (month cur =? 12) eqn:E; [lia|].
    apply Z.eqb_neq in E. lia. }
  assert (Hy' : 1 <= y) by (subst y; destruct (month cur =? 12); lia).
  pose proof (days_in_month_bounds y m) as Hdim.
  destruct (valid_date y m (day cur)) eqn:Hv; rewrite Heq.
  - apply valid_date_bounds in Hv as (Hvy & _ & Hvd). unfold MAXYEAR in *.
    split_ands.
    + split; [discriminate|lia].
    + split; [lia|reflexivity].
    + reflexivity.
  - assert (Hbad : days_in_month y m < day cur \/ 9999 < y).
    { destruct (Z_lt_dec (days_in_month y m) (day cur)) as [|Hn]; [now left|].
      destruct (Z_lt_dec 9999 y) as [|Hn']; [now right|].
      exfalso. assert (valid_date y m (day cur) = true); [|congruence].
      apply valid_date_bounds. unfold MINYEAR, MAXYEAR. lia. }
    split_ands.
    + split; [now intros _|reflexivity].
    + split; [discriminate|lia].
    + intros H28 Hyear. exfalso. subst y.
      destruct (month cur =? 12); lia.
Qed.

Lemma get_next_month_raises_iff_witness :
  valid_date 2027 1 30 = true /\
  get_next_month (mkDate 2027 1 30) = Raise ValueError.
Proof.
  split; [reflexivity|].
  destruct (get_next_month_raises_iff (mkDate 2027 1 30) eq_refl) as (Hraise & _).
  apply Hraise. left. reflexivity.
Defined.

Lemma div_step (y k : Z) :
  0 < k -> y / k = (y - 1) / k + (if y mod k =? 0 then 1 else 0).
Proof.
  intros Hk. destruct (y mod k =? 0) eqn:E.
  - apply Z.eqb_eq in E. Z.div_mod_to_equations. nia.
  - apply Z.eqb_neq in E. Z.div_mod_to_equations. nia.
Qed.

Lemma days_before_year_succ (y : Z) :
  days_before_year (y + 1) =
  days_before_year y + 365 + (if is_leap y then 1 else 0).
Proof.
  unfold days_before_year, is_leap.
  replace (y + 1 - 1) with y by lia.
  rewrite (div_step y 4), (div_step y 100), (div_step y 400) by lia.
  assert (H100 : y mod 100 = 0 -> y mod 4 = 0)
    by (intros; Z.div_mod_to_equations; lia).
  assert (H400 : y mod 400 = 0 -> y mod 100 = 0)
    by (intros; Z.div_mod_to_equations; lia).
  destruct (y mod 4 =? 0) eqn:M4; destruct (y mod 100 =? 0) eqn:M100;
    destruct (y mod 400 =? 0) eqn:M400; cbn [negb orb andb];
    rewrite ?Z.eqb_eq, ?Z.eqb_neq in *; lia.
Qed.

(** The day number of the next day is the next day number. *)
Lemma toordinal_next_day (d d' : date) :
  valid_date (year d) (month d) (day d) = true ->
  next_day d = Ok d' -> toordinal d' = toordinal d + 1.
Proof.
  intros Hvalid. apply valid_date_bounds in Hvalid as (Hy & Hm & Hd).
  unfold MINYEAR, MAXYEAR in *. unfold next_day, toordinal.
  destruct (day d <? days_in_month (year d) (month d)) eqn:E1.
  { intros [= <-]. simpl. lia. }
  apply Z.ltb_ge in E1.
  assert (Hday : day d = days_in_month (year d) (month d)) by lia.
  destruct (month d <? 12) eqn:E2.
  - apply Z.ltb_lt in E2. intros [= <-]. cbn [year month day].
    rewrite Hday. unfold days_before_month, days_in_month.
    assert (Hcases : month d = 1 \/ month d = 2 \/ month d = 3 \/ month d = 4 \/
                     month d = 5 \/ month d = 6 \/ month d = 7 \/ month d = 8 \/
                     month d = 9 \/ month d = 10 \/ month d = 11) by lia.
    destruct (is_leap (year d));
      repeat (destruct Hcases as [-> | Hcases]; [simpl; lia|]);
      rewrite Hcases; simpl; lia.
  - apply Z.ltb_ge in E2. assert (Hm12 : month d = 12) by lia.
    destruct (year d <? MAXYEAR) eqn:E3; [|discriminate].
    intros [= <-]. cbn [year month day].
    rewrite Hday, Hm12, days_before_year_succ.
    change (days_in_month (year d) 12) with 31.
    change (days_before_month (year d + 1) 1) with 0.
    change (days_before_month (year d) 12)
      with (334 + (if is_leap (year d) then 1 else 0)).
    lia.
Qed.

(** X2. At any moment of the calendar but the last day of year 9999,
    [get_sleep_period] returns the seconds left until the next midnight:
    86400 less the seconds elapsed since the last one, a value from 1 to
    86400 (a full day at midnight sharp, never 0). On 31/12/9999 it raises
    [OverflowError]. *)
Theorem get_sleep_period_until_midnight (today : datetime) :
  valid_datetime today = true ->
  (dt_date today = mkDate 9999 12 31 ->
   get_sleep_period today = Raise (OtherError "OverflowError")) /\
  (dt_date today <> mkDate 9999 12 31 ->
   get_sleep_period today = Ok (86400 - seconds_of_day today) /\
   1 <= 86400 - seconds_of_day today <= 86400).
Proof.
  unfold valid_datetime. rewrite !andb_true_iff, !Z.leb_le, !Z.ltb_lt.
  intros ((((((Hvalid & Hh0) & Hh1) & Hm0) & Hm1) & Hs0) & Hs1).
  split.
  - intros Hlast. unfold get_sleep_period. now rewrite Hlast.
  - intros Hnot. unfold get_sleep_period.
    destruct (next_day (dt_date today)) as [next| |] eqn:Hnext.
    + cbn [obind dt_date]. unfold total_seconds_between. cbn [dt_date].
      rewrite (toordinal_next_day _ _ Hvalid Hnext).
      unfold seconds_of_day. cbn [hour minute second].
      split; [f_equal; lia|lia].
    + exfalso. apply valid_date_bounds in Hvalid as (Hy & Hm & Hd).
      unfold MINYEAR, MAXYEAR in *. unfold next_day in Hnext.
      destruct (day (dt_date today) <? _) eqn:E1; [discriminate|].
      destruct (month (dt_date today) <? 12) eqn:E2; [discriminate|].
      destruct (year (dt_date today) <? MAXYEAR) eqn:E3; [discriminate|].
      apply Z.ltb_ge in E1, E2, E3. unfold MAXYEAR in E3.
      apply Hnot. destruct (dt_date today) as [y m d]. cbn in *.
      assert (m = 12) by lia. assert (y = 9999) by lia. subst m y.
      change (days_in_month 9999 12) with 31 in *. f_equal. lia.
    + exfalso. unfold next_day in Hnext.
      repeat match type of Hnext with
             | (if ?c then _ else _) = _ => destruct c
             end; discriminate.
Qed.

Lemma get_sleep_period_until_midnight_witness :
  get_sleep_period (mkDatetime (mkDate 2026 11 3) 23 59 59) = Ok 1 /\
  get_sleep_period (mkDatetime (mkDate 2026 11 3) 0 0 0) = Ok 86400.
Proof.
  destruct (get_sleep_period_until_midnight
              (mkDatetime (mkDate 2026 11 3) 23 59 59) eq_refl) as (_ & Hlate).
  destruct (get_sleep_period_until_midnight
              (mkDatetime (mkDate 2026 11 3) 0 0 0) eq_refl) as (_ & Hsharp).
  split.
  - apply Hlate. discriminate.
  - apply Hsharp. discriminate.
Defined.

Section MoreCrawlerProperties.

Variable utc_offset : Z.

Lemma Flight_init_valid (json_data : json) (f : Flight) :
  Flight_init utc_offset json_data = Ok f -> is_valid f = true.
Proof.
  unfold Flight_init.
  repeat match goal with
         | |- obind ?c _ = _ -> _ => destruct c; try discriminate; cbn [obind]
         end.
  now intros [= <-].
Qed.

Lemma parse_all_valid (entries : list json) :
  forall fls, parse_all utc_offset entries = Ok fls ->
              Forall (fun c => is_valid c = true) fls.
Proof.
  induction entries as [|json_data rest IH]; intros fls; simpl.
  - intros [= <-]. constructor.
  - destruct (Flight_init utc_offset json_data) as [f| |] eqn:Hf; try discriminate.
    cbn [obind].
    destruct (parse_all utc_offset rest) as [others| |]; try discriminate.
    cbn [obind]. intros [= <-]. constructor; [|now apply IH].
    now apply (Flight_init_valid json_data).
Qed.

(** ** The loop of [search_flight] as a whole *)

Lemma search_loop_parsed (entries : list json) :
  forall (fls : list Flight) (w : world),
    parse_all utc_offset entries = Ok fls ->
    search_loop utc_offset entries w = (store_all fls w, Ok tt).
Proof.
  induction entries as [|json_data rest IH]; intros fls w; simpl.
  - now intros [= <-].
  - unfold bind, lift, modify.
    destruct (Flight_init utc_offset json_data) as [f| |]; try discriminate.
    cbn [obind].
    destruct (parse_all utc_offset rest) as [others| |] eqn:Hrest; try discriminate.
    cbn [obind]. intros [= <-].
    now rewrite (IH others (store_flight f w) eq_refl).
Qed.

Lemma search_loop_app (l1 l2 : list json) :
  forall w, search_loop utc_offset (l1 ++ l2) w =
            match search_loop utc_offset l1 w with
            | (w1, Ok _) => search_loop utc_offset l2 w1
            | res => res
            end.
Proof.
  induction l1 as [|json_data rest IH]; intros w; simpl; [reflexivity|].
  unfold bind, lift, modify.
  destruct (Flight_init utc_offset json_data) as [f| |]; try reflexivity.
  apply IH.
Qed.

(** C1. [search_flight] reaches an entry of its response, having stored the
    candidates of the entries before it, and builds the candidate [flight],
    whose key is made of its [fly_from], [fly_to] and [dep_date]. When the
    dict holds under that key a flight that is valid and strictly cheaper,
    the call changes nothing more; in every other case the candidate becomes
    the stored flight of its key. In particular an invalid stored flight is
    replaced by any candidate, and so is a valid stored flight of equal
    price. *)
Theorem search_flight_upsert_rule
    (a b c d : string) (w : world) (response_data : json)
    (before : list json) (json_data : json)
    (candidates : list Flight) (flight : Flight) (rest : list fetch_outcome) :
  net w = FetchBody response_data :: rest ->
  subscript response_data "data" = Ok (JArr (before ++ [json_data])) ->
  parse_all utc_offset before = Ok candidates ->
  Flight_init utc_offset json_data = Ok flight ->
  let key := fly_from flight +:+ "-" +:+ fly_to flight +:+ "-" +:+ dep_date flight in
  let w0 := store_all candidates
              (logs [EvSearch a b c d; EvRequest (SEARCH_FLIGHT_URL a b c d)]
                    (with_net rest w)) in
  let blocks := exists old, stored w0 key = Some old /\ is_valid old = true /\
                            price old < price flight in
  let w' := fst (search_flight utc_offset a b c d w) in
  snd (search_flight utc_offset a b c d w) = Ok tt /\
  (blocks -> w' = w0) /\
  (~ blocks -> stored w' key = Some flight) /\
  (forall old, stored w0 key = Some old -> is_valid old = false ->
               stored w' key = Some flight) /\
  (forall old, stored w0 key = Some old -> price old = price flight ->
               stored w' key = Some flight).
Proof.
  intros Hnet Hdata Hbefore Hinit key w0 blocks w'.
  assert (Hrun : search_flight utc_offset a b c d w
                 = (store_flight flight w0, Ok tt)).
  { rewrite (search_flight_step utc_offset a b c d w _ rest Hnet).
    cbv zeta. rewrite Hdata. cbn [py_iter].
    rewrite search_loop_app, (search_loop_parsed before candidates _ Hbefore).
    simpl. unfold bind, lift, modify. now rewrite Hinit. }
  subst w'. rewrite Hrun. cbn [fst snd].
  change key with (flight_key flight) in *.
  assert (Hno : ~ blocks -> stored (store_flight flight w0) (flight_key flight)
                            = Some flight).
  { intros Hnb. unfold store_flight.
    destruct (keeps_stored w0 (flight_key flight) flight) eqn:E.
    - apply keeps_stored_true in E. contradiction.
    - apply stored_assign_flight. }
  split_ands.
  - reflexivity.
  - intros Hb. unfold store_flight.
    apply keeps_stored_true in Hb. now rewrite Hb.
  - exact Hno.
  - intros old Hs Hv. apply Hno. intros (old' & Hs' & Hv' & _). congruence.
  - intros old Hs Hp. apply Hno. intros (old' & Hs' & _ & Hlt).
    assert (old' = old) by congruence. subst old'. lia.
Qed.

(** X4. When an entry of the response is not a dict, or is a dict without
    [booking_token], the first field [Flight] reads, [search_flight] ends with
    the exception of that subscript after having stored the candidates of the
    entries before it; the entries after it are not looked at, and nothing is
    undone. *)
Theorem search_flight_stops_at_bad_entry
    (a b c d : string) (w : world) (response_data : json)
    (good : list json) (bad : json) (more : list json)
    (fls : list Flight) (e : exn) (rest : list fetch_outcome) :
  net w = FetchBody response_data :: rest ->
  subscript response_data "data" = Ok (JArr (good ++ bad :: more)) ->
  parse_all utc_offset good = Ok fls ->
  subscript bad "booking_token" = Raise e ->
  search_flight utc_offset a b c d w =
  (store_all fls
     (logs [EvSearch a b c d; EvRequest (SEARCH_FLIGHT_URL a b c d)]
           (with_net rest w)),
   Raise e).
Proof.
  intros Hnet Hdata Hgood Hsub.
  assert (Hbad : Flight_init utc_offset bad = Raise e).
  { unfold Flight_init. now rewrite Hsub. }
  rewrite (search_flight_step utc_offset a b c d w _ rest Hnet).
  cbv zeta. rewrite Hdata. cbn [py_iter].
  rewrite search_loop_app, (search_loop_parsed good fls _ Hgood).
  simpl. unfold bind, lift. now rewrite Hbad.
Qed.

Lemma live_store_flight (f : Flight) (w : world) :
  live w -> live (store_flight f w).
Proof.
  intros Hlive. unfold store_flight.
  destruct (keeps_stored w _ _); [exact Hlive|now apply live_assign_flight].
Qed.

Lemma live_store_all (fls : list Flight) :
  forall w, live w -> live (store_all fls w).
Proof.
  induction fls as [|c fls IH]; intros w Hlive; [exact Hlive|].
  apply IH. now apply live_store_flight.
Qed.

(** What one round of the loop does to the key of its candidate. *)
Lemma store_flight_cases (c : Flight) (w : world) :
  (store_flight c w = w /\
   exists old, stored w (flight_key c) = Some old /\ is_valid old = true /\
               price old < price c) \/
  (stored (store_flight c w) (flight_key c) = Some c /\
   forall old, stored w (flight_key c) = Some old -> is_valid old = true ->
               price c <= price old).
Proof.
  unfold store_flight.
  destruct (keeps_stored w (flight_key c) c) eqn:E.
  - left. split; [reflexivity|]. now apply keeps_stored_true.
  - right. split; [apply stored_assign_flight|].
    intros old Hs Hv. destruct (Z_lt_dec (price old) (price c)) as [Hlt|]; [|lia].
    exfalso. assert (keeps_stored w (flight_key c) c = true); [|congruence].
    apply keeps_stored_true. now exists old.
Qed.

(** The flight a key leads to after the loop has run over valid candidates:
    the cheapest of the valid flight stored before and of the candidates of
    the key. *)
Lemma store_all_cheapest (key : string) (fls : list Flight) :
  Forall (fun c => is_valid c = true) fls ->
  forall w, live w ->
    (with_key key fls = [] -> stored (store_all fls w) key = stored w key) /\
    (with_key key fls <> [] ->
     exists f, stored (store_all fls w) key = Some f /\ is_valid f = true /\
       (forall c, c ∈ with_key key fls -> price f <= price c) /\
       (forall old, stored w key = Some old -> is_valid old = true ->
                    price f <= price old) /\
       (f ∈ with_key key fls \/ stored w key = Some f)).
Proof.
  induction 1 as [|c fls Hc Hfls IH]; intros w Hlive.
  { split; [reflexivity|]. intros H. now contradiction H. }
  pose proof (live_store_flight c w Hlive) as Hlive1.
  destruct (IH (store_flight c w) Hlive1) as [IHnone IHsome].
  change (store_all (c :: fls) w) with (store_all fls (store_flight c w)).
  unfold with_key in *.
  destruct (decide (flight_key c = key)) as [Hkey|Hkey].
  - rewrite filter_cons_True by exact Hkey. subst key.
    split; [discriminate|]. intros _.
    destruct (filter (fun c0 => flight_key c0 = flight_key c) fls) as [|c1 cs] eqn:Hcands.
    + rewrite (IHnone eq_refl).
      destruct (store_flight_cases c w) as [(Hsame & old & Hold & Hvalid & Hlt)
                                           |(Hnew & Hle)].
      * rewrite Hsame. exists old. split_ands; auto.
        -- intros c0 Hin. apply list_elem_of_singleton in Hin. subst c0. lia.
        -- intros old' Hold'. assert (old' = old) by congruence. subst old'. lia.
      * exists c. split_ands; auto.
        -- intros c0 Hin. apply list_elem_of_singleton in Hin. subst c0. lia.
        -- left. apply list_elem_of_here.
    + destruct IHsome as (f & Hf & Hvf & Hmin & Hold1 & Hwhere); [discriminate|].
      exists f. split; [exact Hf|]. split; [exact Hvf|].
      destruct (store_flight_cases c w) as [(Hsame & old & Hold & Hvalid & Hlt)
                                           |(Hnew & Hle)].
      * rewrite Hsame in *. pose proof (Hold1 old Hold Hvalid) as Hfo.
        split_ands.
        -- intros c0 Hin. apply elem_of_cons in Hin as [->|Hin]; [lia|auto].
        -- exact Hold1.
        -- destruct Hwhere as [Hin|Hst]; [left; now apply list_elem_of_further|now right].
      * pose proof (Hold1 c Hnew Hc) as Hfc.
        split_ands.
        -- intros c0 Hin. apply elem_of_cons in Hin as [->|Hin]; [lia|auto].
        -- intros old Hold Hvalid. pose proof (Hle old Hold Hvalid). lia.
        -- left. destruct Hwhere as [Hin|Hst].
           ++ now apply list_elem_of_further.
           ++ assert (f = c) by congruence. subst f. apply list_elem_of_here.
  - rewrite filter_cons_False by exact Hkey.
    rewrite <- (store_flight_other_key c w key Hlive) by congruence.
    split; [exact IHnone|exact IHsome].
Qed.

(** X5. After [search_flight] has run over a response whose entries can all
    be parsed, a key with no candidate in the response leads to the flight it
    led to before; a key with candidates leads to a valid flight that is no
    dearer than any candidate of the key, nor than the valid flight stored
    before, and that is one of the candidates or the flight stored before. *)
Theorem search_flight_keeps_cheapest
    (a b c d : string) (w : world) (response_data : json)
    (entries : list json) (fls : list Flight) (rest : list fetch_outcome)
    (key : string) :
  live w ->
  net w = FetchBody response_data :: rest ->
  subscript response_data "data" = Ok (JArr entries) ->
  parse_all utc_offset entries = Ok fls ->
  let w' := fst (search_flight utc_offset a b c d w) in
  snd (search_flight utc_offset a b c d w) = Ok tt /\
  (with_key key fls = [] -> stored w' key = stored w key) /\
  (with_key key fls <> [] ->
   exists f, stored w' key = Some f /\ is_valid f = true /\
     (forall c, c ∈ with_key key fls -> price f <= price c) /\
     (forall old, stored w key = Some old -> is_valid old = true ->
                  price f <= price old) /\
     (f ∈ with_key key fls \/ stored w key = Some f)).
Proof.
  intros Hlive Hnet Hdata Hparse. cbv zeta.
  rewrite (search_flight_step utc_offset a b c d w _ rest Hnet).
  cbv zeta. rewrite Hdata. cbn [py_iter].
  rewrite (search_loop_parsed entries fls _ Hparse). cbn [fst snd].
  split; [reflexivity|].
  set (w1 := logs _ (with_net rest w)).
  assert (Hlive1 : live w1) by exact Hlive.
  assert (Hst : stored w1 key = stored w key) by reflexivity.
  rewrite <- Hst.
  exact (store_all_cheapest key fls (parse_all_valid entries fls Hparse) w1 Hlive1).
Qed.

(** ** Invariants of the dict *)

Lemma assoc_get_None {A} (k : string) (d : list (string * A)) :
  assoc_get k d = None <-> k ∉ map fst d.
Proof.
  induction d as [|[k' v] d IH]; simpl.
  - split; [intros _; apply not_elem_of_nil|reflexivity].
  - rewrite not_elem_of_cons. destruct (String.eqb k k') eqn:E.
    + apply String.eqb_eq in E. split; [discriminate|]. intros [Hne _]. congruence.
    + apply String.eqb_neq in E. rewrite IH. tauto.
Qed.

Lemma keys_dict_set {A} (k : string) (v : A) (d : list (string * A)) :
  map fst (dict_set k v d) =
  match assoc_get k d with
  | Some _ => map fst d
  | None => map fst d ++ [k]
  end.
Proof.
  induction d as [|[k' v'] d IH]; simpl; [reflexivity|].
  destruct (String.eqb k k') eqn:E; simpl.
  - apply String.eqb_eq in E. now subst k'.
  - rewrite IH. now destruct (assoc_get k d).
Qed.

Lemma NoDup_dict_set {A} (k : string) (v : A) (d : list (string * A)) :
  NoDup (map fst d) -> NoDup (map fst (dict_set k v d)).
Proof.
  intros Hnd. rewrite keys_dict_set.
  destruct (assoc_get k d) eqn:E; [exact Hnd|].
  apply assoc_get_None in E.
  apply NoDup_app. split; [exact Hnd|]. split.
  - intros x Hx Hin. apply list_elem_of_singleton in Hin. now subst x.
  - apply NoDup_singleton.
Qed.

Lemma holds_live (Q : string -> Flight -> Prop) (w : world) : holds Q w -> live w.
Proof.
  unfold holds, live. intros H. eapply Forall_impl; [exact H|].
  intros kv (f & Hf & _). eapply lookup_lt_Some; eauto.
Qed.

Lemma holds_store_flight (Q : string -> Flight -> Prop) (c : Flight) (w : world) :
  Q (flight_key c) c -> holds Q w -> holds Q (store_flight c w).
Proof.
  intros Hc Hw. unfold store_flight.
  destruct (keeps_stored w _ _); [exact Hw|].
  unfold holds, assign_flight. cbn [heap flights with_flights with_heap].
  apply Forall_dict_set.
  - eapply Forall_impl; [exact Hw|]. intros kv (f & Hf & HQ).
    exists f. split; [|exact HQ]. now apply lookup_app_l_Some.
  - exists c. split; [|exact Hc]. now apply list_lookup_middle.
Qed.

Lemma NoDup_store_flight (c : Flight) (w : world) :
  NoDup (map fst (flights w)) -> NoDup (map fst (flights (store_flight c w))).
Proof.
  intros Hnd. unfold store_flight.
  destruct (keeps_stored w _ _); [exact Hnd|].
  unfold assign_flight. cbn [flights with_flights]. now apply NoDup_dict_set.
Qed.

Lemma store_invariant_same (Q : string -> Flight -> Prop) (w w' : world) :
  heap w' = heap w -> flights w' = flights w ->
  store_invariant Q w -> store_invariant Q w'.
Proof. unfold store_invariant, holds. now intros -> ->. Qed.

Lemma store_invariant_search_loop (Q : string -> Flight -> Prop)
    (entries : list json) :
  (forall json_data c, Flight_init utc_offset json_data = Ok c ->
                       Q (flight_key c) c) ->
  preserves (store_invariant Q) (search_loop utc_offset entries).
Proof.
  intros HQ. induction entries as [|json_data rest IH]; intros w Hw; simpl.
  - exact Hw.
  - unfold bind, lift, modify.
    destruct (Flight_init utc_offset json_data) as [c| |] eqn:Hc; simpl; auto.
    apply IH. destruct Hw as [Hnd Hh]. split.
    + now apply NoDup_store_flight.
    + apply holds_store_flight; [|exact Hh]. now apply (HQ json_data).
Qed.

Lemma store_invariant_search_flight (Q : string -> Flight -> Prop)
    (a b c d : string) :
  (forall json_data c, Flight_init utc_offset json_data = Ok c ->
                       Q (flight_key c) c) ->
  preserves (store_invariant Q) (search_flight utc_offset a b c d).
Proof.
  intros HQ w Hw.
  destruct (net w) as [|o rest] eqn:Hnet.
  - rewrite (search_flight_blocked utc_offset a b c d w Hnet). exact Hw.
  - rewrite (search_flight_step utc_offset a b c d w o rest Hnet).
    set (w1 := logs _ (with_net rest w)).
    assert (Hw1 : store_invariant Q w1) by exact Hw.
    destruct o as [response_data| |e]; try exact Hw1.
    destruct (subscript response_data "data") as [data|e|]; try exact Hw1.
    destruct (py_iter data) as [entries|e|]; try exact Hw1.
    now apply store_invariant_search_loop.
Qed.

Lemma preserves_gather (P : world -> Prop) (tasks : list (M unit)) :
  Forall (preserves P) tasks -> preserves P (gather tasks).
Proof.
  induction 1 as [|t ts Ht Hts IH]; intros w Hw; simpl; [exact Hw|].
  specialize (Ht w Hw). destruct (t w) as [w1 r1].
  specialize (IH w1 Ht). destruct (gather ts w1) as [w2 r2]. exact IH.
Qed.

Lemma preserves_write_to_file (Q : string -> Flight -> Prop) :
  preserves (store_invariant Q) write_to_file.
Proof. intros w Hw. exact Hw. Qed.

(** X6. Whatever the state it starts from and whatever the network answers,
    a daily pass leaves a dict in which no key occurs twice and every key
    leads to a valid flight whose route and departure date make up the key. *)
Theorem search_pass_store_invariant (today : date) (w : world) :
  let w' := fst (search_pass utc_offset today w) in
  NoDup (map fst (flights w')) /\ keyed w' /\ all_valid w'.
Proof.
  set (Q := fun (k : string) (f : Flight) => flight_key f = k /\ is_valid f = true).
  assert (HQ : forall json_data c, Flight_init utc_offset json_data = Ok c ->
                                   Q (flight_key c) c).
  { intros json_data c Hc. split; [reflexivity|].
    now apply (Flight_init_valid json_data). }
  assert (Hinv : store_invariant Q (fst (search_pass utc_offset today w))).
  { unfold search_pass, bind, modify, lift.
    assert (H0 : forall df dt, store_invariant Q (with_dates df dt (with_flights [] w))).
    { intros df dt. split; [apply NoDup_nil_2|constructor]. }
    destruct (get_date_range today) as [[df dt]|e|]; cbn [fst snd];
      try (split; [apply NoDup_nil_2|constructor]).
    assert (Hg : preserves (store_invariant Q)
                   (gather (search_tasks utc_offset df dt))).
    { apply preserves_gather. unfold search_tasks.
      apply Forall_map, Forall_forall. intros dir _.
      now apply store_invariant_search_flight. }
    specialize (Hg _ (H0 df dt)).
    destruct (gather (search_tasks utc_offset df dt) _) as [w1 r1].
    destruct r1 as [[]|e|]; exact Hg. }
  destruct Hinv as [Hnd Hh]. cbv zeta. split; [exact Hnd|].
  unfold keyed, all_valid. unfold holds in Hh.
  split; (eapply Forall_impl; [exact Hh|]); intros kv (f & Hf & Hk & Hv);
    exists f; auto.
Qed.

Lemma store_invariant_mutate (Q : string -> Flight -> Prop) (r : nat)
    (g : Flight -> Flight) :
  (forall k f, Q k f -> Q k (g f)) ->
  preserves (store_invariant Q) (mutate r g).
Proof.
  intros Hg w [Hnd Hh]. unfold mutate, modify. cbn [fst].
  destruct (heap w !! r) as [old|] eqn:Hr; [|now split].
  split; [exact Hnd|]. unfold holds in *. cbn [heap flights with_heap].
  eapply Forall_impl; [exact Hh|]. intros kv (f & Hf & HQ).
  destruct (decide (snd kv = r)) as [Heq|Hne].
  - exists (g old). rewrite Heq in *.
    rewrite list_lookup_insert_eq by (eapply lookup_lt_Some; eauto).
    split; [reflexivity|]. apply Hg. congruence.
  - exists f. rewrite list_lookup_insert_ne by congruence. now split.
Qed.

Lemma store_invariant_dispatch (Q : string -> Flight -> Prop) (r : nat)
    (data : json) :
  (forall json_data c, Flight_init utc_offset json_data = Ok c ->
                       Q (flight_key c) c) ->
  (forall k f b, Q k f -> Q k (set_is_valid b f)) ->
  (forall k f t, Q k f -> Q k (set_price t f)) ->
  preserves (store_invariant Q) (dispatch utc_offset r data).
Proof.
  intros Hnew Hvalid Hprice w Hw. unfold dispatch, bind, lift.
  destruct (subscript data "flights_invalid") as [v|e|]; cbn [fst]; auto.
  destruct (truthy v).
  - pose proof (store_invariant_mutate Q r (set_is_valid false)
                  (fun k f => Hvalid k f false) w Hw) as Hm.
    destruct (mutate r (set_is_valid false) w) as [w2 [[]|e|]]; cbn [fst] in *; auto.
    unfold deref. destruct (heap w2 !! r) as [f|]; cbn [fst]; auto.
    now apply store_invariant_search_flight.
  - destruct (subscript data "price_change") as [c|e|]; cbn [fst]; auto.
    destruct (truthy c); cbn [fst]; auto.
    destruct (subscript data "total") as [t|e|]; cbn [fst obind]; auto.
    destruct t; cbn [fst as_num]; auto.
    apply store_invariant_mutate; auto.
Qed.

Lemma store_invariant_check_flight (Q : string -> Flight -> Prop) (r : nat) :
  (forall json_data c, Flight_init utc_offset json_data = Ok c ->
                       Q (flight_key c) c) ->
  (forall k f b, Q k f -> Q k (set_is_valid b f)) ->
  (forall k f t, Q k f -> Q k (set_price t f)) ->
  preserves (store_invariant Q) (check_flight utc_offset r).
Proof.
  intros Hnew Hvalid Hprice w Hw. unfold check_flight, bind, deref.
  destruct (heap w !! r) as [f|]; [|exact Hw].
  destruct (check_loop_frame (CHECK_FLIGHT_URL (booking_token f))
              (S (length (net w))) 0 w) as (Hh & Hf & _).
  destruct (check_loop (S (length (net w))) (CHECK_FLIGHT_URL (booking_token f)) 0 w)
    as [w1 [[data k]|e|]]; cbn [fst snd] in *;
    try (now apply (store_invariant_same Q w w1)).
  apply store_invariant_dispatch; auto.
  now apply (store_invariant_same Q w w1).
Qed.

(** X7. A check of a flight and a whole validation pass keep the dict
    consistent: no key twice, and every key made of the route and the
    departure date of the flight it leads to, whatever the checks answer and
    whatever the searches they trigger return. *)
Theorem check_pass_keeps_consistency (w : world) :
  consistent w ->
  (forall r, consistent (fst (check_flight utc_offset r w))) /\
  consistent (fst (check_pass utc_offset w)).
Proof.
  set (Q := fun (k : string) (f : Flight) => flight_key f = k).
  change (store_invariant Q w ->
          (forall r, store_invariant Q (fst (check_flight utc_offset r w))) /\
          store_invariant Q (fst (check_pass utc_offset w))).
  assert (Hflight : forall r, preserves (store_invariant Q)
                                (check_flight utc_offset r)).
  { intros r. apply store_invariant_check_flight; subst Q; cbn; auto. }
  intros Hw. split; [intros r; now apply Hflight|].
  unfold check_pass, bind. cbn [fst snd].
  assert (Hg : preserves (store_invariant Q) (gather (check_tasks utc_offset w))).
  { apply preserves_gather. unfold check_tasks.
    apply Forall_map, Forall_forall. intros kv _. apply Hflight. }
  specialize (Hg w Hw).
  destruct (gather (check_tasks utc_offset w) w) as [w1 [[]|e|]]; exact Hg.
Qed.

(** ** The daily pass *)

Lemma requests_app (t1 t2 : list event) :
  requests (t1 ++ t2) = requests t1 ++ requests t2.
Proof. apply omap_app. Qed.

(** The events of a fan-out of searches over the directions [dirs]. *)
Lemma gather_searches_trace (df dt : string) (dirs : list (string * string)) :
  forall w,
    let w' := fst (gather (map (fun dir => search_flight utc_offset (fst dir)
                                             (snd dir) df dt) dirs) w) in
    trace w' = trace w ++
      flat_map (fun dir => [EvSearch (fst dir) (snd dir) df dt;
                            EvRequest (SEARCH_FLIGHT_URL (fst dir) (snd dir) df dt)])
               dirs /\
    date_from w' = date_from w /\ date_to w' = date_to w.
Proof.
  induction dirs as [|dir dirs IH]; intros w; cbn [map gather flat_map].
  - cbn. now rewrite app_nil_r.
  - destruct (search_flight_frame utc_offset (fst dir) (snd dir) df dt w)
      as (Ht & _ & _ & Hf & Hd & _).
    destruct (search_flight utc_offset (fst dir) (snd dir) df dt w) as [w1 r1].
    destruct (IH w1) as (Ht' & Hf' & Hd').
    destruct (gather _ w1) as [w2 r2]. cbn [fst] in *.
    split_ands; try congruence.
    rewrite Ht', Ht, <- app_assoc. reflexivity.
Qed.

Lemma searches_flat_map (df dt : string) (dirs : list (string * string)) :
  searches (flat_map (fun dir => [EvSearch (fst dir) (snd dir) df dt;
                        EvRequest (SEARCH_FLIGHT_URL (fst dir) (snd dir) df dt)])
              dirs)
  = map (fun dir => (fst dir, snd dir, df, dt)) dirs.
Proof.
  induction dirs as [|dir dirs IH]; [reflexivity|].
  cbn [flat_map map]. rewrite searches_app, IH. reflexivity.
Qed.

Lemma requests_flat_map (df dt : string) (dirs : list (string * string)) :
  requests (flat_map (fun dir => [EvSearch (fst dir) (snd dir) df dt;
                        EvRequest (SEARCH_FLIGHT_URL (fst dir) (snd dir) df dt)])
              dirs)
  = map (fun dir => SEARCH_FLIGHT_URL (fst dir) (snd dir) df dt) dirs.
Proof.
  induction dirs as [|dir dirs IH]; [reflexivity|].
  cbn [flat_map map]. rewrite requests_app, IH. reflexivity.
Qed.

(** X8. A daily pass whose window can be computed calls [search_flight] once
    for each configured direction, in the order of the list, each time with
    the window it has just stored, which starts today; it sends one request
    for each, and no other, even when some of the searches fail. *)
Theorem search_pass_searches_every_direction
    (today : date) (w : world) (df dt : string) :
  get_date_range today = Ok (df, dt) ->
  let w' := fst (search_pass utc_offset today w) in
  searches (trace w') =
    searches (trace w) ++
    map (fun dir => (fst dir, snd dir, df, dt)) FLIGHT_DIRECTIONS /\
  requests (trace w') =
    requests (trace w) ++
    map (fun dir => SEARCH_FLIGHT_URL (fst dir) (snd dir) df dt) FLIGHT_DIRECTIONS /\
  df = strftime_dmy today /\ date_from w' = df /\ date_to w' = dt.
Proof.
  intros Hrange. cbv zeta.
  pose proof (get_date_range_from today df dt Hrange) as Hdf.
  unfold search_pass, bind, modify, lift. rewrite Hrange. cbn [fst snd].
  unfold search_tasks.
  destruct (gather_searches_trace df dt FLIGHT_DIRECTIONS
              (with_dates df dt (with_flights [] w))) as (Ht & Hf & Hd).
  destruct (gather _ (with_dates df dt (with_flights [] w))) as [w1 r1].
  cbn [fst trace date_from date_to with_dates with_flights] in Ht, Hf, Hd.
  assert (Hs : searches (trace w1) = searches (trace w) ++
                 map (fun dir => (fst dir, snd dir, df, dt)) FLIGHT_DIRECTIONS).
  { now rewrite Ht, searches_app, searches_flat_map. }
  assert (Hr : requests (trace w1) = requests (trace w) ++
                 map (fun dir => SEARCH_FLIGHT_URL (fst dir) (snd dir) df dt)
                     FLIGHT_DIRECTIONS).
  { now rewrite Ht, requests_app, requests_flat_map. }
  destruct r1 as [[]|e|]; cbn [fst]; try (split_ands; assumption).
  unfold write_to_file, modify.
  cbn [fst trace log with_output_file date_from date_to].
  rewrite searches_app, requests_app, Hs, Hr. cbn. rewrite !app_nil_r.
  split_ands; auto.
Qed.

Lemma get_next_month_short (cur : date) :
  let y := if month cur =? 12 then year cur + 1 else year cur in
  let m := if month cur =? 12 then 1 else month cur + 1 in
  days_in_month y m < day cur -> get_next_month cur = Raise ValueError.
Proof.
  cbv zeta. intros Hshort.
  unfold get_next_month, date_replace, date_new.
  destruct (month cur =? 12);
    match goal with
    | |- (if valid_date ?y ?m ?d then _ else _) = _ =>
        destruct (valid_date y m d) eqn:Hv; [|reflexivity];
        apply valid_date_bounds in Hv; lia
    end.
Qed.

(** X9. On a day of the month that the next month does not have (the 31st
    before a month of 30 days, the 29th to 31st of January, ...), a daily
    pass empties the dict and ends with [ValueError]: no search is made, no
    request sent, the file is not written and the stored window is not
    updated. *)
Theorem search_pass_on_missing_day (today : date) (w : world) :
  let y := if month today =? 12 then year today + 1 else year today in
  let m := if month today =? 12 then 1 else month today + 1 in
  days_in_month y m < day today ->
  search_pass utc_offset today w = (with_flights [] w, Raise ValueError).
Proof.
  cbv zeta. intros Hshort.
  unfold search_pass, bind, modify, lift, get_date_range.
  now rewrite (get_next_month_short today Hshort).
Qed.

(** ** The retry loop and the semaphore *)

(** After the loop, [check_flight] adds to the trace either nothing or the
    two events of one search. *)
Lemma dispatch_trace (r : nat) (data : json) (w : world) :
  exists es,
    trace (fst (dispatch utc_offset r data w)) = trace w ++ es /\
    (es = [] \/
     exists a b c d, es = [EvSearch a b c d; EvRequest (SEARCH_FLIGHT_URL a b c d)]).
Proof.
  assert (Hnone : forall w0 : world, trace w0 = trace w ->
            exists es, trace w0 = trace w ++ es /\
            (es = [] \/ exists a b c d,
               es = [EvSearch a b c d; EvRequest (SEARCH_FLIGHT_URL a b c d)])).
  { intros w0 Hw0. exists []. rewrite app_nil_r. auto. }
  unfold dispatch, bind, lift.
  destruct (subscript data "flights_invalid") as [v|e|]; cbn [fst]; auto.
  destruct (truthy v).
  - unfold mutate, modify, deref.
    set (w2 := match heap w !! r with
               | Some old => with_heap (<[r:=set_is_valid false old]> (heap w)) w
               | None => w
               end).
    assert (Ht : trace w2 = trace w) by (subst w2; now destruct (heap w !! r)).
    destruct (heap w2 !! r) as [f|]; cbn [fst].
    + destruct (search_flight_frame utc_offset (fly_from f) (fly_to f)
                  (dep_date f) (arr_date f) w2) as (Htr & _).
      eexists. rewrite Htr, Ht. split; [reflexivity|]. right. eauto.
    + now apply Hnone.
  - destruct (subscript data "price_change") as [c|e|]; cbn [fst]; auto.
    destruct (truthy c); cbn [fst]; auto.
    destruct (subscript data "total") as [t|e|]; cbn [fst obind]; auto.
    destruct t; cbn [fst as_num]; auto.
    unfold mutate, modify. cbn [fst].
    apply Hnone. now destruct (heap w !! r).
Qed.

Lemma requests_backoff (url : string) (n : nat) :
  forall k, requests (backoff url k n) = replicate n url.
Proof.
  induction n as [|n IH]; intros k; [reflexivity|].
  cbn [backoff]. rewrite requests_app, IH. reflexivity.
Qed.

Lemma sum_backoff (n : nat) :
  2 * foldr Z.add 0 (map (fun i => DELAY_TIME * Z.of_nat i) (seq 1 n)) =
  DELAY_TIME * Z.of_nat n * (Z.of_nat n + 1).
Proof.
  induction n as [|n IH]; [reflexivity|].
  rewrite seq_S, map_app, foldr_app. cbn [map foldr].
  assert (Hshift : forall (l : list Z) (a : Z),
            foldr Z.add a l = foldr Z.add 0 l + a).
  { induction l as [|x l IHl]; intros a; cbn [foldr]; [lia|].
    rewrite (IHl a). lia. }
  rewrite Hshift. unfold DELAY_TIME in *. lia.
Qed.

(** X10. When the check is answered [n] times without [flights_checked] and
    then with it, the loop of [check_flight] ends: it has made [n + 1]
    requests, each inside the semaphore, and slept [DELAY_TIME * 1], ...,
    [DELAY_TIME * n] seconds between them, [DELAY_TIME * n * (n + 1) / 2] in
    all; what follows the loop adds no sleep, and at most one search. *)
Theorem check_flight_backoff
    (w : world) (r : nat) (f : Flight)
    (pre : list fetch_outcome) (data : json) (rest : list fetch_outcome) :
  heap w !! r = Some f ->
  forallb unchecked pre = true ->
  checked data = true ->
  net w = pre ++ FetchBody data :: rest ->
  let url := CHECK_FLIGHT_URL (booking_token f) in
  let n := length pre in
  let delays := map (fun i => DELAY_TIME * Z.of_nat i) (seq 1 n) in
  let w' := fst (check_flight utc_offset r w) in
  (exists es,
     trace w' = trace w ++ backoff url 0 n ++ last_round url ++ es /\
     (es = [] \/
      exists a b c d, es = [EvSearch a b c d; EvRequest (SEARCH_FLIGHT_URL a b c d)])) /\
  sleeps (trace w') = sleeps (trace w) ++ delays /\
  2 * foldr Z.add 0 delays = DELAY_TIME * Z.of_nat n * (Z.of_nat n + 1) /\
  requests (backoff url 0 n ++ last_round url) = replicate (S n) url.
Proof.
  intros Hr Hpre Hd Hnet. cbv zeta.
  rewrite (check_flight_after_loop utc_offset w r f pre data rest Hr Hpre Hd Hnet).
  destruct (dispatch_trace r data (after_loop f pre rest w)) as (es & Ht & Hes).
  assert (Htrace : trace (fst (dispatch utc_offset r data (after_loop f pre rest w)))
                   = trace w ++ backoff (CHECK_FLIGHT_URL (booking_token f)) 0
                                  (length pre)
                     ++ last_round (CHECK_FLIGHT_URL (booking_token f)) ++ es).
  { rewrite Ht. unfold after_loop. cbn [trace logs with_net].
    now rewrite <- !app_assoc. }
  split_ands.
  - exists es. now split.
  - rewrite Htrace, !sleeps_app, sleeps_backoff.
    assert (Hno : sleeps es = []).
    { destruct Hes as [->|(a & b & c & d & ->)]; reflexivity. }
    rewrite Hno. cbn [last_round sleeps omap]. rewrite !app_nil_r.
    f_equal.
  - apply sum_backoff.
  - rewrite requests_app, requests_backoff.
    change (requests (last_round (CHECK_FLIGHT_URL (booking_token f))))
      with [CHECK_FLIGHT_URL (booking_token f)].
    symmetry. apply replicate_S_end.
Qed.

Lemma slot_after_app (es1 es2 : list event) :
  forall held,
    slot_after held (es1 ++ es2) =
    match slot_after held es1 with
    | Some held' => slot_after held' es2
    | None => None
    end.
Proof.
  induction es1 as [|e es1 IH]; intros held; [reflexivity|].
  destruct e, held; cbn [app slot_after]; auto.
Qed.

(** The loop takes and gives back the slot around each fetch; it is stopped
    with the slot held only while it awaits the answer to a check. *)
Lemma check_loop_slots (url : string) (fuel : nat) :
  forall (k : Z) (w : world),
    exists es,
      trace (fst (check_loop fuel url k w)) = trace w ++ es /\
      (slot_after false es = Some false \/
       (slot_after false es = Some true /\
        snd (check_loop fuel url k w) = Blocked)).
Proof.
  induction fuel as [|fuel IH]; intros k w.
  { exists []. cbn. rewrite app_nil_r. auto. }
  destruct (net w) as [|o rest] eqn:Hnet.
  - rewrite check_loop_blocked by exact Hnet.
    exists [EvAcquire; EvRequest url]. cbn. auto.
  - rewrite (check_loop_step fuel url k w o rest Hnet).
    set (w1 := logs [EvAcquire; EvRequest url; EvRelease] (with_net rest w)).
    assert (H1 : exists es, trace w1 = trace w ++ es /\
              (slot_after false es = Some false \/
               (slot_after false es = Some true /\ False))).
    { exists [EvAcquire; EvRequest url; EvRelease]. cbn. auto. }
    assert (Hdone : forall res : outcome (json * Z),
              exists es, trace (fst (w1, res)) = trace w ++ es /\
                (slot_after false es = Some false \/
                 (slot_after false es = Some true /\ snd (w1, res) = Blocked))).
    { intros res. destruct H1 as (es & Ht & [H|[_ []]]). exists es. auto. }
    destruct o as [data| |e]; try apply Hdone.
    destruct (subscript data "flights_checked") as [c|e|]; try apply Hdone.
    destruct (truthy c); try apply Hdone.
    destruct (IH (k + 1) (logs [EvSleep (DELAY_TIME * (k + 1))] w1))
      as (es & Ht & Hs).
    exists ([EvAcquire; EvRequest url; EvRelease; EvSleep (DELAY_TIME * (k + 1))]
            ++ es).
    split.
    + rewrite Ht. subst w1. cbn [trace logs with_net].
      now rewrite <- !app_assoc.
    + rewrite slot_after_app. exact Hs.
Qed.

(** X11. In what [check_flight] does, whatever the answers: a slot of the
    semaphore is taken only when none is held and given back only when one
    is; no sleep, no call of [search_flight] and no file write happens while
    the slot is held; and when [check_flight] ends, by a return or by an
    exception, the slot has been given back. *)
Theorem check_flight_slot_discipline (r : nat) (w : world) :
  exists es,
    trace (fst (check_flight utc_offset r w)) = trace w ++ es /\
    (exists held, slot_after false es = Some held) /\
    (snd (check_flight utc_offset r w) <> Blocked ->
     slot_after false es = Some false).
Proof.
  unfold check_flight, bind, deref.
  destruct (heap w !! r) as [f|].
  2: { exists []. cbn. rewrite app_nil_r. eauto. }
  destruct (check_loop_slots (CHECK_FLIGHT_URL (booking_token f))
              (S (length (net w))) 0 w) as (es & Ht & Hs).
  destruct (check_loop (S (length (net w))) (CHECK_FLIGHT_URL (booking_token f)) 0 w)
    as [w1 res]. cbn [fst snd] in Ht, Hs.
  destruct res as [[data k]|e|]; cbn [fst snd].
  - destruct Hs as [Hs|[_ Hs]]; [|discriminate].
    destruct (dispatch_trace r data w1) as (es' & Ht' & Hes').
    exists (es ++ es'). rewrite Ht', Ht, <- app_assoc.
    split; [reflexivity|]. rewrite slot_after_app, Hs.
    assert (Hfree : slot_after false es' = Some false).
    { destruct Hes' as [->|(a & b & c & d & ->)]; reflexivity. }
    rewrite Hfree. eauto.
  - destruct Hs as [Hs|[_ Hs]]; [|discriminate].
    exists es. rewrite Hs. eauto.
  - exists es. split; [exact Ht|]. split; [|intros H; now contradiction H].
    destruct Hs as [Hs|[Hs _]]; rewrite Hs; eauto.
Qed.

(** ** An invalid flight and the search that follows *)

(** X12. When a check marks as invalid the flight that the dict holds under
    its key, and the search that follows is answered with a list of entries
    that can all be parsed: if some entries have the key of the flight, the
    dict ends with, under that key, the cheapest of them, a valid flight,
    whatever the price of the invalid one; if none has, the invalid flight
    stays in the dict, flagged. *)
Theorem check_flight_replaces_invalid
    (w : world) (r : nat) (f : Flight)
    (pre : list fetch_outcome) (data v response_data : json)
    (entries : list json) (fls : list Flight) (rest : list fetch_outcome) :
  live w ->
  heap w !! r = Some f ->
  assoc_get (flight_key f) (flights w) = Some r ->
  forallb unchecked pre = true ->
  checked data = true ->
  subscript data "flights_invalid" = Ok v -> truthy v = true ->
  net w = pre ++ FetchBody data :: FetchBody response_data :: rest ->
  subscript response_data "data" = Ok (JArr entries) ->
  parse_all utc_offset entries = Ok fls ->
  let w' := fst (check_flight utc_offset r w) in
  let key := flight_key f in
  snd (check_flight utc_offset r w) = Ok tt /\
  heap w' !! r = Some (set_is_valid false f) /\
  (with_key key fls = [] -> stored w' key = Some (set_is_valid false f)) /\
  (with_key key fls <> [] ->
   exists g, stored w' key = Some g /\ is_valid g = true /\
             g ∈ with_key key fls /\
             forall c, c ∈ with_key key fls -> price g <= price c).
Proof.
  intros Hlive Hr Hkey Hpre Hd Hv Ht Hnet Hdata Hparse. cbv zeta.
  destruct (check_flight_invalid utc_offset w r f pre data
              (FetchBody response_data :: rest) v Hr Hpre Hd Hnet Hv Ht)
    as (Heq & Hobj & _).
  cbv zeta in Heq, Hobj.
  split; [|split; [exact Hobj|]].
  - rewrite Heq.
    rewrite (search_flight_step utc_offset _ _ _ _ _
               (FetchBody response_data) rest) by reflexivity.
    cbv zeta. rewrite Hdata. cbn [py_iter].
    now rewrite (search_loop_parsed entries fls _ Hparse).
  - rewrite Heq.
    rewrite (search_flight_step utc_offset _ _ _ _ _
               (FetchBody response_data) rest) by reflexivity.
    cbv zeta. rewrite Hdata. cbn [py_iter].
    rewrite (search_loop_parsed entries fls _ Hparse). cbn [fst].
    set (w2 := logs _ (with_net rest _)).
    assert (Hlt : (r < length (heap w))%nat) by (eapply lookup_lt_Some; eauto).
    assert (Hlive2 : live w2).
    { subst w2. unfold live in *. cbn [heap flights logs with_net with_heap after_loop].
      now rewrite length_insert. }
    assert (Hst : stored w2 (flight_key f) = Some (set_is_valid false f)).
    { subst w2. unfold stored.
      cbn [heap flights logs with_net with_heap after_loop].
      rewrite Hkey. now apply list_lookup_insert_eq. }
    destruct (store_all_cheapest (flight_key f) fls
                (parse_all_valid entries fls Hparse) w2 Hlive2) as [Hnone Hsome].
    split.
    + intros Hempty. now rewrite (Hnone Hempty).
    + intros Hcands. destruct (Hsome Hcands) as (g & Hg & Hvg & Hmin & _ & Hwhere).
      exists g. split_ands; auto.
      destruct Hwhere as [Hin|Hold]; [exact Hin|].
      rewrite Hst in Hold. injection Hold as <-. discriminate Hvg.
Qed.

(** ** The keys of the dict *)

Lemma append_nil_l (s : string) : "" +:+ s = s.
Proof. reflexivity. Qed.

Lemma append_cons (c : Ascii.ascii) (s t : string) :
  String c s +:+ t = String c (s +:+ t).
Proof. reflexivity. Qed.

Lemma append_dash_inj (s1 s2 r1 r2 : string) :
  dashless s1 = true -> dashless s2 = true ->
  s1 +:+ "-" +:+ r1 = s2 +:+ "-" +:+ r2 -> s1 = s2 /\ r1 = r2.
Proof.
  revert s2. induction s1 as [|c1 s1 IH]; intros [|c2 s2] H1 H2 Heq;
    rewrite ?append_nil_l, ?append_cons, ?append_nil_l in Heq.
  - injection Heq as ->. now split.
  - exfalso. injection Heq as <- _. cbn in H2. discriminate.
  - exfalso. injection Heq as -> _. cbn in H1. discriminate.
  - injection Heq as <- Heq.
    cbn [dashless] in H1, H2.
    apply andb_true_iff in H1 as [_ H1]. apply andb_true_iff in H2 as [_ H2].
    destruct (IH s2 H1 H2 Heq) as [-> ->]. now split.
Qed.

(** X13. The key of the dict tells the route and the day: two flights whose
    location codes contain no dash have the same key only if they have the
    same origin, the same destination and the same departure date. *)
Theorem flight_key_injective (f g : Flight) :
  dashless (fly_from f) = true -> dashless (fly_to f) = true ->
  dashless (fly_from g) = true -> dashless (fly_to g) = true ->
  flight_key f = flight_key g ->
  fly_from f = fly_from g /\ fly_to f = fly_to g /\ dep_date f = dep_date g.
Proof.
  intros Hff Hft Hgf Hgt Hkey. unfold flight_key in Hkey.
  destruct (append_dash_inj _ _ _ _ Hff Hgf Hkey) as [Hfrom Hrest].
  destruct (append_dash_inj _ _ _ _ Hft Hgt Hrest) as [Hto Hdate].
  now split_ands.
Qed.

(** With a dash in a code, two routes can share a key. *)
Example flight_key_collision :
  flight_key (mkFlight true "t" "A-B" "C" 1 (dep_time Sample.flight)
                       (arr_time Sample.flight))
  = flight_key (mkFlight true "t" "A" "B-C" 1 (dep_time Sample.flight)
                         (arr_time Sample.flight)).
Proof. reflexivity. Qed.

(** ** A validation pass with nothing new *)

Lemma check_flight_nothing_new (w : world) (r : nat) (f : Flight) (data : json)
    (rest : list fetch_outcome) :
  heap w !! r = Some f ->
  nothing_new data = true ->
  net w = FetchBody data :: rest ->
  check_flight utc_offset r w =
  (logs (last_round (CHECK_FLIGHT_URL (booking_token f))) (with_net rest w), Ok tt).
Proof.
  intros Hr Hnew Hnet. unfold nothing_new in Hnew.
  apply andb_true_iff in Hnew as [Hchecked Hnew].
  destruct (subscript data "flights_invalid") as [v| |] eqn:Hv; try discriminate.
  destruct (subscript data "price_change") as [c| |] eqn:Hc; try discriminate.
  apply andb_true_iff in Hnew as [Hv' Hc']. apply negb_true_iff in Hv', Hc'.
  rewrite (check_flight_after_loop utc_offset w r f [] data rest Hr eq_refl
             Hchecked Hnet).
  apply (dispatch_unchanged utc_offset _ r data v c Hv Hv' Hc Hc').
Qed.

(** The fan-out of the checks, each answered at once with nothing new. *)
Lemma gather_nothing_new (refs : list (string * nat)) :
  forall (w : world) (answers : list json) (rest : list fetch_outcome),
    Forall (fun kv => is_Some (heap w !! snd kv)) refs ->
    length answers = length refs ->
    forallb nothing_new answers = true ->
    net w = map FetchBody answers ++ rest ->
    exists es,
      gather (map (fun kv => check_flight utc_offset (snd kv)) refs) w =
        (logs es (with_net rest w), Ok tt) /\
      requests es =
        map (fun f => CHECK_FLIGHT_URL (booking_token f))
            (omap (fun kv => heap w !! snd kv) refs) /\
      sleeps es = [] /\ searches es = [] /\ writes es = [].
Proof.
  induction refs as [|[k r] refs IH]; intros w answers rest Hlive Hlen Hnew Hnet.
  - destruct answers; [|discriminate]. cbn in Hnet. subst rest.
    exists []. cbn [map gather]. unfold ret.
    rewrite with_net_same, logs_nil. auto.
  - destruct answers as [|data answers]; [discriminate|].
    cbn [forallb] in Hnew. apply andb_true_iff in Hnew as [Hdata Hnew].
    inversion Hlive as [|kv l [f Hf] Hlive']; subst.
    cbn [snd] in Hf. cbn [map gather snd].
    rewrite (check_flight_nothing_new w r f data (map FetchBody answers ++ rest)
               Hf Hdata Hnet).
    set (w1 := logs _ (with_net _ w)).
    destruct (IH w1 answers rest) as (es & Hg & Hreq & Hsl & Hse & Hwr); auto.
    rewrite Hg.
    exists (last_round (CHECK_FLIGHT_URL (booking_token f)) ++ es).
    split.
    + cbn [first_failure]. f_equal. subst w1.
      unfold logs, with_net; cbn. now rewrite <- app_assoc.
    + rewrite requests_app, sleeps_app, searches_app, writes_app.
      rewrite Hreq, Hsl, Hse, Hwr. cbn [omap list_omap snd]. rewrite Hf.
      split_ands; reflexivity.
Qed.

(** X14. A validation pass in which every check is answered at once with
    nothing new (checked, not invalid, no price change) ends normally: it
    has sent one check request for each flight of the dict, in the order of
    the dict, and nothing else; it has neither slept nor searched; the dict
    and the flights are as before, and the file holds the lines of these
    flights. *)
Theorem check_pass_nothing_new
    (w : world) (answers : list json) (rest : list fetch_outcome) :
  live w ->
  length answers = length (flights w) ->
  forallb nothing_new answers = true ->
  net w = map FetchBody answers ++ rest ->
  let w' := fst (check_pass utc_offset w) in
  snd (check_pass utc_offset w) = Ok tt /\
  heap w' = heap w /\ flights w' = flights w /\ net w' = rest /\
  output_file w' = render (values w) /\
  requests (trace w') = requests (trace w) ++ check_urls w /\
  sleeps (trace w') = sleeps (trace w) /\
  searches (trace w') = searches (trace w) /\
  writes (trace w') = writes (trace w) ++ [render (values w)].
Proof.
  intros Hlive Hlen Hnew Hnet. cbv zeta.
  assert (Hsome : Forall (fun kv => is_Some (heap w !! snd kv)) (flights w)).
  { eapply Forall_impl; [exact Hlive|]. intros kv Hlt.
    now apply lookup_lt_is_Some. }
  destruct (gather_nothing_new (flights w) w answers rest Hsome Hlen Hnew Hnet)
    as (es & Hg & Hreq & Hsl & Hse & Hwr).
  unfold check_pass, bind, check_tasks. rewrite Hg.
  unfold write_to_file, modify. cbn [fst snd].
  assert (Hvalues : values (logs es (with_net rest w)) = values w) by reflexivity.
  rewrite Hvalues.
  cbn [heap flights net output_file trace log logs with_net with_output_file].
  rewrite !requests_app, !sleeps_app, !searches_app, !writes_app.
  rewrite Hreq, Hsl, Hse, Hwr. cbn. rewrite ?app_nil_r.
  split_ands; reflexivity.
Qed.

(** ** The semaphore under the event loop *)

Lemma is_check_url_check (token : string) :
  is_check_url (CHECK_FLIGHT_URL token) = true.
Proof. reflexivity. Qed.

Lemma is_check_url_search (a b c d : string) :
  is_check_url (SEARCH_FLIGHT_URL a b c d) = false.
Proof. reflexivity. Qed.

Lemma events_of_app (t : M unit) (w : world) (es : list event) :
  trace (fst (t w)) = trace w ++ es -> events_of t w = es.
Proof. intros H. unfold events_of. rewrite H. apply drop_app_length. Qed.

Lemma held_after_app (es1 es2 : list event) :
  forall held,
    held_after held (es1 ++ es2) = held_after (held_after held es1) es2.
Proof.
  induction es1 as [|e es1 IH]; intros held; [reflexivity|].
  destruct e; cbn [app held_after]; auto.
Qed.

Lemma guarded_app (es1 es2 : list event) :
  forall held,
    guarded held (es1 ++ es2) =
    guarded held es1 && guarded (held_after held es1) es2.
Proof.
  induction es1 as [|e es1 IH]; intros held; [reflexivity|].
  destruct e; cbn [app guarded held_after]; rewrite IH;
    now rewrite ?andb_assoc.
Qed.

(** The search that [search_flight] requests is requested with no slot
    held. *)
Lemma search_flight_events (a b c d : string) (w : world) :
  events_of (search_flight utc_offset a b c d) w
  = [EvSearch a b c d; EvRequest (SEARCH_FLIGHT_URL a b c d)].
Proof.
  apply events_of_app.
  now destruct (search_flight_frame utc_offset a b c d w) as (Htr & _).
Qed.

(** The loop of [check_flight] requests its checks with a slot held, and
    sleeps with none; it is stopped with the slot held only while it awaits
    the answer to a check. *)
Lemma check_loop_guarded (url : string) (fuel : nat) :
  is_check_url url = true ->
  forall (k : Z) (w : world),
    exists es,
      trace (fst (check_loop fuel url k w)) = trace w ++ es /\
      guarded false es = true /\
      (snd (check_loop fuel url k w) <> Blocked -> held_after false es = false).
Proof.
  intros Hurl.
  induction fuel as [|fuel IH]; intros k w.
  { exists []. cbn. rewrite app_nil_r. auto. }
  destruct (net w) as [|o rest] eqn:Hnet.
  - rewrite check_loop_blocked by exact Hnet.
    exists [EvAcquire; EvRequest url]. cbn. rewrite Hurl.
    split_ands; auto. intros H. now contradiction H.
  - rewrite (check_loop_step fuel url k w o rest Hnet).
    set (w1 := logs [EvAcquire; EvRequest url; EvRelease] (with_net rest w)).
    assert (Hdone : forall res : outcome (json * Z),
              exists es, trace (fst (w1, res)) = trace w ++ es /\
                guarded false es = true /\
                (snd (w1, res) <> Blocked -> held_after false es = false)).
    { intros res. exists [EvAcquire; EvRequest url; EvRelease].
      cbn. rewrite Hurl. auto. }
    destruct o as [data| |e]; try apply Hdone.
    destruct (subscript data "flights_checked") as [c|e|]; try apply Hdone.
    destruct (truthy c); try apply Hdone.
    destruct (IH (k + 1) (logs [EvSleep (DELAY_TIME * (k + 1))] w1))
      as (es & Ht & Hg & Hh).
    exists ([EvAcquire; EvRequest url; EvRelease; EvSleep (DELAY_TIME * (k + 1))]
            ++ es).
    split_ands.
    + rewrite Ht. subst w1. cbn [trace logs with_net].
      now rewrite <- !app_assoc.
    + rewrite guarded_app. cbn. now rewrite Hurl.
    + intros Hnb. rewrite held_after_app. cbn. now apply Hh.
Qed.

(** The events of [check_flight] respect the semaphore, whatever the
    answers. *)
Lemma check_flight_guarded (r : nat) (w : world) :
  guarded false (events_of (check_flight utc_offset r) w) = true.
Proof.
  unfold events_of, check_flight, bind, deref.
  destruct (heap w !! r) as [f|].
  2: { cbn [fst]. now rewrite drop_all. }
  destruct (check_loop_guarded (CHECK_FLIGHT_URL (booking_token f))
              (S (length (net w))) (is_check_url_check _) 0 w)
    as (es & Ht & Hg & Hh).
  destruct (check_loop (S (length (net w))) (CHECK_FLIGHT_URL (booking_token f)) 0 w)
    as [w1 res]. cbn [fst snd] in Ht, Hh.
  destruct res as [[data k]|e|]; cbn [fst snd].
  - destruct (dispatch_trace r data w1) as (es' & Ht' & Hes').
    rewrite Ht', Ht, <- app_assoc, drop_app_length, guarded_app, Hg, Hh
      by discriminate.
    destruct Hes' as [->|(a & b & c & d & ->)]; [reflexivity|].
    cbn. now rewrite is_check_url_search.
  - now rewrite Ht, drop_app_length.
  - now rewrite Ht, drop_app_length.
Qed.

Lemma search_flight_guarded (a b c d : string) (w : world) :
  guarded false (events_of (search_flight utc_offset a b c d) w) = true.
Proof.
  rewrite search_flight_events. cbn. now rewrite is_check_url_search.
Qed.

Lemma crawler_program_guarded (es : list event) :
  crawler_program utc_offset es -> guarded false es = true.
Proof.
  intros [(r & w & ->)|(a & b & c & d & w & ->)].
  - apply check_flight_guarded.
  - apply search_flight_guarded.
Qed.

(** [check_flight] begins by taking a slot and requesting the check of its
    flight. *)
Lemma check_flight_first_events (r : nat) (w : world) (f : Flight) :
  heap w !! r = Some f ->
  exists rest,
    events_of (check_flight utc_offset r) w
    = EvAcquire :: EvRequest (CHECK_FLIGHT_URL (booking_token f)) :: rest.
Proof.
  intros Hr.
  assert (Hrun : check_flight utc_offset r w
                 = (fun w0 => let (w1, res) :=
                      check_loop (S (length (net w0)))
                                 (CHECK_FLIGHT_URL (booking_token f)) 0 w0 in
                    match res with
                    | Ok res => dispatch utc_offset r (fst res) w1
                    | Raise e => (w1, Raise e)
                    | Blocked => (w1, Blocked)
                    end) w).
  { unfold check_flight, bind, deref. now rewrite Hr. }
  unfold events_of. rewrite Hrun. clear Hrun.
  set (url := CHECK_FLIGHT_URL (booking_token f)).
  assert (Hloop : exists es,
            trace (fst (check_loop (S (length (net w))) url 0 w))
            = trace w ++ EvAcquire :: EvRequest url :: es).
  { destruct (net w) as [|o rest] eqn:Hnet.
    - rewrite check_loop_blocked by exact Hnet. now exists [].
    - rewrite (check_loop_step _ url 0 w o rest Hnet).
      set (w1 := logs [EvAcquire; EvRequest url; EvRelease] (with_net rest w)).
      assert (Hdone : forall res : outcome (json * Z),
                exists es, trace (fst (w1, res))
                           = trace w ++ EvAcquire :: EvRequest url :: es).
      { intros res. now exists [EvRelease]. }
      destruct o as [data| |e]; try apply Hdone.
      destruct (subscript data "flights_checked") as [c|e|]; try apply Hdone.
      destruct (truthy c); try apply Hdone.
      destruct (check_loop_slots url (length (FetchBody data :: rest)) (0 + 1)
                  (logs [EvSleep (DELAY_TIME * (0 + 1))] w1)) as (es & Ht & _).
      exists (EvRelease :: EvSleep (DELAY_TIME * (0 + 1)) :: es).
      rewrite Ht. subst w1. cbn [trace logs with_net].
      now rewrite <- !app_assoc. }
  destruct Hloop as (es & Ht).
  destruct (check_loop (S (length (net w))) url 0 w) as [w1 res].
  cbn [fst snd] in Ht.
  destruct res as [[data k]|e|]; cbn [fst snd].
  - destruct (dispatch_trace r data w1) as (es' & Ht' & _).
    exists (es ++ es').
    now rewrite Ht', Ht, <- app_assoc, drop_app_length.
  - exists es. now rewrite Ht, drop_app_length.
  - exists es. now rewrite Ht, drop_app_length.
Qed.


(** *** The slots in use *)

Lemma count_cons (f : EventLoop.task -> bool) (p : EventLoop.task)
    (l : list EventLoop.task) :
  EventLoop.count f (p :: l) = (Nat.b2n (f p) + EventLoop.count f l)%nat.
Proof. unfold EventLoop.count. cbn [List.filter]. now destruct (f p). Qed.

Lemma count_app (f : EventLoop.task -> bool) (l1 l2 : list EventLoop.task) :
  EventLoop.count f (l1 ++ l2)
  = (EventLoop.count f l1 + EventLoop.count f l2)%nat.
Proof.
  induction l1 as [|p l1 IH]; [reflexivity|].
  cbn [app]. rewrite !count_cons, IH. lia.
Qed.

Lemma count_insert (f : EventLoop.task -> bool) (l : list EventLoop.task) :
  forall (i : nat) (p q : EventLoop.task),
    l !! i = Some p ->
    (EventLoop.count f (<[i := q]> l) + Nat.b2n (f p)
     = EventLoop.count f l + Nat.b2n (f q))%nat.
Proof.
  induction l as [|x l IH]; intros i p q Hi; [discriminate|].
  destruct i as [|i]; cbn in Hi.
  - injection Hi as ->. cbn [insert list_insert]. rewrite !count_cons. lia.
  - change (<[S i := q]> (x :: l)) with (x :: <[i := q]> l).
    rewrite !count_cons. specialize (IH i p q Hi). lia.
Qed.

Lemma count_le (f g : EventLoop.task -> bool) (l : list EventLoop.task) :
  Forall (fun p => f p = true -> g p = true) l ->
  (EventLoop.count f l <= EventLoop.count g l)%nat.
Proof.
  induction 1 as [|p l Hp Hl IH]; [reflexivity|].
  rewrite !count_cons. destruct (f p); [rewrite Hp by reflexivity|];
    cbn; lia.
Qed.

Lemma map_insert_same {A B} (f : A -> B) (l : list A) :
  forall (i : nat) (x y : A),
    l !! i = Some x -> f y = f x -> map f (<[i := y]> l) = map f l.
Proof.
  induction l as [|a l IH]; intros i x y Hi Hf; [reflexivity|].
  destruct i as [|i]; cbn in Hi.
  - injection Hi as ->. cbn. now rewrite Hf.
  - change (<[S i := y]> (a :: l)) with (a :: <[i := y]> l).
    cbn [map]. f_equal. now apply (IH i x y).
Qed.

Lemma Forall_lookup_map {A B} (P : B -> Prop) (f : A -> B) (l : list A) :
  Forall P (map f l) ->
  forall (i : nat) (x : A), l !! i = Some x -> P (f x).
Proof.
  induction l as [|a l IH]; intros HP i x Hi; [discriminate|].
  inversion HP as [|? ? Ha Hl]; subst.
  destruct i as [|i]; cbn in Hi.
  - now injection Hi as <-.
  - now apply (IH Hl i).
Qed.

(** The whole program of a task: what it has made and what it has still to
    make. *)
Lemma advance_programs (i : nat) (s s' : EventLoop.state) :
  EventLoop.advance i s = Some s' ->
  map (fun p => EventLoop.past p ++ EventLoop.ahead p) (EventLoop.tasks s')
  = map (fun p => EventLoop.past p ++ EventLoop.ahead p) (EventLoop.tasks s).
Proof.
  unfold EventLoop.advance.
  destruct (EventLoop.tasks s !! i) as [[made [|e rest]]|] eqn:Hi;
    try discriminate.
  destruct (EventLoop.after_event e (EventLoop.free s)); [|discriminate].
  intros [= <-]. cbn [EventLoop.tasks].
  apply (map_insert_same _ _ i (EventLoop.mkTask made (e :: rest))); [exact Hi|].
  cbn. now rewrite <- app_assoc.
Qed.

(** A step of a task that respects the semaphore keeps the slots accounted
    for: the free ones and those the tasks hold make [MAX_TASKS]. *)
Lemma advance_slots (i : nat) (s s' : EventLoop.state) :
  Forall (fun es => guarded false es = true)
         (map (fun p => EventLoop.past p ++ EventLoop.ahead p)
              (EventLoop.tasks s)) ->
  EventLoop.advance i s = Some s' ->
  (EventLoop.free s' + EventLoop.count EventLoop.holds_slot (EventLoop.tasks s')
   = EventLoop.free s + EventLoop.count EventLoop.holds_slot (EventLoop.tasks s))%nat.
Proof.
  intros Hall. unfold EventLoop.advance.
  destruct (EventLoop.tasks s !! i) as [[made [|e rest]]|] eqn:Hi;
    try discriminate.
  pose proof (Forall_lookup_map _ _ _ Hall i _ Hi) as Hg.
  cbn [EventLoop.past EventLoop.ahead] in Hg.
  rewrite guarded_app in Hg. apply andb_true_iff in Hg as [_ Hg].
  pose proof (count_insert EventLoop.holds_slot (EventLoop.tasks s) i _
                (EventLoop.mkTask (made ++ [e]) rest) Hi) as Hc.
  assert (Hholds : forall made0 rest0,
            EventLoop.holds_slot (EventLoop.mkTask made0 rest0)
            = held_after false made0) by reflexivity.
  rewrite !Hholds, held_after_app in Hc. clear Hholds.
  destruct (EventLoop.after_event e (EventLoop.free s)) as [slots|] eqn:He;
    [|discriminate].
  intros [= <-]. cbn [EventLoop.free EventLoop.tasks].
  destruct e; cbn [EventLoop.after_event] in He;
    cbn [guarded held_after] in Hg, Hc;
    destruct (held_after false made); cbn in Hg, Hc; try discriminate;
    try (destruct (EventLoop.free s); [discriminate|]);
    injection He as <-; lia.
Qed.

(** A task of a guarded program that awaits the answer to a check holds a
    slot. *)
Lemma in_check_fetch_holds (p : EventLoop.task) :
  guarded false (EventLoop.past p ++ EventLoop.ahead p) = true ->
  EventLoop.in_check_fetch p = true -> EventLoop.holds_slot p = true.
Proof.
  intros Hg. unfold EventLoop.in_check_fetch, EventLoop.awaits,
    EventLoop.holds_slot.
  destruct (last (EventLoop.past p)) as [e|] eqn:Hlast; [|discriminate].
  apply last_Some in Hlast as [made Hmade]. rewrite Hmade in *.
  destruct e; try discriminate. intros Hurl.
  rewrite <- app_assoc, guarded_app in Hg.
  apply andb_true_iff in Hg as [_ Hg]. cbn [app guarded] in Hg.
  apply andb_true_iff in Hg as [Hg _]. rewrite Hurl in Hg.
  rewrite held_after_app. cbn [held_after].
  now destruct (held_after false made).
Qed.

(** A task that awaits the answer to a search holds no slot. *)
Lemma in_search_fetch_free (p : EventLoop.task) :
  guarded false (EventLoop.past p ++ EventLoop.ahead p) = true ->
  EventLoop.in_search_fetch p = true -> EventLoop.holds_slot p = false.
Proof.
  intros Hg. unfold EventLoop.in_search_fetch, EventLoop.awaits,
    EventLoop.holds_slot.
  destruct (last (EventLoop.past p)) as [e|] eqn:Hlast; [|discriminate].
  apply last_Some in Hlast as [made Hmade]. rewrite Hmade in *.
  destruct e; try discriminate. intros Hurl.
  rewrite <- app_assoc, guarded_app in Hg.
  apply andb_true_iff in Hg as [_ Hg]. cbn [app guarded] in Hg.
  apply andb_true_iff in Hg as [Hg _].
  apply negb_true_iff in Hurl. rewrite Hurl in Hg.
  rewrite held_after_app. cbn [held_after].
  now destruct (held_after false made).
Qed.

Lemma start_programs (programs : list (list event)) :
  map (fun p => EventLoop.past p ++ EventLoop.ahead p)
      (EventLoop.tasks (EventLoop.start programs)) = programs.
Proof.
  unfold EventLoop.start. cbn [EventLoop.tasks].
  induction programs as [|es programs IH]; [reflexivity|].
  cbn. now rewrite IH.
Qed.

Lemma start_holders (programs : list (list event)) :
  EventLoop.count EventLoop.holds_slot
    (EventLoop.tasks (EventLoop.start programs)) = 0%nat.
Proof.
  unfold EventLoop.start. cbn [EventLoop.tasks].
  induction programs as [|es programs IH]; [reflexivity|].
  cbn [map]. now rewrite count_cons, IH.
Qed.

(** What the event loop keeps, whatever the tasks it resumes. *)
Lemma advances_slots (programs : list (list event)) (schedule : list nat) :
  Forall (fun es => guarded false es = true) programs ->
  forall s s' : EventLoop.state,
    map (fun p => EventLoop.past p ++ EventLoop.ahead p) (EventLoop.tasks s)
    = programs ->
    EventLoop.advances schedule s = Some s' ->
    map (fun p => EventLoop.past p ++ EventLoop.ahead p) (EventLoop.tasks s')
    = programs /\
    (EventLoop.free s' + EventLoop.count EventLoop.holds_slot (EventLoop.tasks s')
     = EventLoop.free s + EventLoop.count EventLoop.holds_slot (EventLoop.tasks s))%nat.
Proof.
  intros Hall.
  induction schedule as [|i later IH]; intros s s' Hs; cbn [EventLoop.advances].
  - now intros [= <-].
  - destruct (EventLoop.advance i s) as [s1|] eqn:H1; [|discriminate].
    intros Hlater.
    pose proof (advance_programs i s s1 H1) as Hp.
    assert (Hslots := advance_slots i s s1). rewrite Hs in Hslots.
    specialize (Hslots Hall H1).
    destruct (IH s1 s' ltac:(congruence) Hlater) as [Hp' Hslots'].
    split; [exact Hp'|lia].
Qed.


(** *** A burst of tasks *)

Lemma advance_at (pre post : list EventLoop.task) (made : list event)
    (e : event) (rest : list event) (slots slots' : nat) :
  EventLoop.after_event e slots = Some slots' ->
  EventLoop.advance (length pre)
    (EventLoop.mkState slots
       (pre ++ EventLoop.mkTask made (e :: rest) :: post))
  = Some (EventLoop.mkState slots'
            (pre ++ EventLoop.mkTask (made ++ [e]) rest :: post)).
Proof.
  intros He. unfold EventLoop.advance. cbn [EventLoop.tasks EventLoop.free].
  rewrite list_lookup_middle by reflexivity. rewrite He.
  do 2 f_equal.
  rewrite <- (Nat.add_0_r (length pre)) at 1. now rewrite insert_app_r.
Qed.

(** Tasks that each begin with an event costing [c] slots, then a request:
    the event loop can let [m] of them make these two events when it has the
    slots for it. *)
Lemma burst_enters (c m : nat) :
  forall (pre : list EventLoop.task) (programs : list (list event))
         (slots : nat),
    (m <= length programs)%nat ->
    Forall (fun es => exists e1 url rest,
                es = e1 :: EvRequest url :: rest /\
                forall x, EventLoop.after_event e1 (c + x) = Some x)
           (take m programs) ->
    EventLoop.advances (EventLoop.burst (length pre) m)
      (EventLoop.mkState (m * c + slots)
         (pre ++ map (EventLoop.mkTask []) programs))
    = Some (EventLoop.mkState slots
              (pre ++ map EventLoop.enter (take m programs)
                   ++ map (EventLoop.mkTask []) (drop m programs))).
Proof.
  induction m as [|m IH]; intros pre programs slots Hlen Hall.
  { cbn. now rewrite drop_0. }
  destruct programs as [|es programs]; [cbn in Hlen; lia|].
  cbn [take] in Hall. inversion Hall as [|? ? Hes Hrest]; subst.
  destruct Hes as (e1 & url & rest & -> & Hcost).
  cbn [length] in Hlen.
  unfold EventLoop.burst. cbn [seq flat_map app EventLoop.advances map].
  rewrite (advance_at pre _ [] e1 _ (S m * c + slots) (m * c + slots)).
  2: { replace (S m * c + slots)%nat with (c + (m * c + slots))%nat by lia.
       apply Hcost. }
  rewrite (advance_at pre _ ([] ++ [e1]) (EvRequest url) rest
             (m * c + slots) (m * c + slots)) by reflexivity.
  specialize (IH (pre ++ [EventLoop.enter (e1 :: EvRequest url :: rest)])
                programs slots ltac:(lia) Hrest).
  rewrite length_app in IH. cbn [length] in IH.
  rewrite Nat.add_1_r in IH. unfold EventLoop.burst in IH.
  rewrite <- !app_assoc in IH. cbn [app EventLoop.enter] in IH.
  cbn [app]. rewrite IH. reflexivity.
Qed.

Lemma count_not_started (f : EventLoop.task -> bool)
    (programs : list (list event)) :
  (forall es, f (EventLoop.mkTask [] es) = false) ->
  EventLoop.count f (map (EventLoop.mkTask []) programs) = 0%nat.
Proof.
  intros Hf. induction programs as [|es programs IH]; [reflexivity|].
  cbn [map]. now rewrite count_cons, IH, Hf.
Qed.

Lemma count_entered (f : EventLoop.task -> bool)
    (programs : list (list event)) :
  Forall (fun es => f (EventLoop.enter es) = true) programs ->
  EventLoop.count f (map EventLoop.enter programs) = length programs.
Proof.
  induction 1 as [|es programs Hes Hrest IH]; [reflexivity|].
  cbn [map length]. now rewrite count_cons, IH, Hes.
Qed.

(** The checks of flights that exist begin by taking a slot and requesting a
    check; the searches begin by requesting a search. *)
Lemma check_programs_begin (jobs : list (nat * world)) :
  Forall (fun job => is_Some (heap (snd job) !! fst job)) jobs ->
  Forall (fun es => exists url rest,
              es = EvAcquire :: EvRequest url :: rest /\
              is_check_url url = true)
         (check_programs utc_offset jobs).
Proof.
  unfold check_programs. induction 1 as [|[r w] jobs [f Hf] Hrest IH];
    cbn [map fst snd] in *; constructor; [|exact IH].
  destruct (check_flight_first_events r w f Hf) as (rest & ->).
  eauto using is_check_url_check.
Qed.

Lemma search_programs_begin
    (calls : list (string * string * string * string * world)) :
  Forall (fun es => exists a b c d,
              es = [EvSearch a b c d; EvRequest (SEARCH_FLIGHT_URL a b c d)])
         (search_programs utc_offset calls).
Proof.
  unfold search_programs.
  induction calls as [|[[[[a b] c] d] w] calls IH]; cbn [map]; constructor;
    [|exact IH].
  rewrite search_flight_events. eauto.
Qed.

(** A burst of at least [MAX_TASKS] checks: the event loop lets [MAX_TASKS]
    of them request their check, and the others wait for a slot. *)
Lemma check_burst_saturates (jobs : list (nat * world)) :
  Forall (fun job => is_Some (heap (snd job) !! fst job)) jobs ->
  (MAX_TASKS <= length jobs)%nat ->
  exists s,
    EventLoop.advances (EventLoop.burst 0 MAX_TASKS)
      (EventLoop.start (check_programs utc_offset jobs)) = Some s /\
    EventLoop.count EventLoop.in_check_fetch (EventLoop.tasks s) = MAX_TASKS /\
    EventLoop.free s = 0%nat /\
    forall i, (MAX_TASKS <= i < length jobs)%nat ->
              EventLoop.advance i s = None.
Proof.
  intros Hjobs Hlen.
  pose proof (check_programs_begin jobs Hjobs) as Hbegin.
  assert (Hlen' : length (check_programs utc_offset jobs) = length jobs).
  { unfold check_programs. apply length_map. }
  set (programs := check_programs utc_offset jobs) in *.
  eexists. split.
  { unfold EventLoop.start.
    apply (burst_enters 1 MAX_TASKS [] programs 0); [lia|].
    apply Forall_take. eapply Forall_impl; [exact Hbegin|].
    intros es (url & rest & -> & _). exists EvAcquire, url, rest.
    split; [reflexivity|]. intros x. reflexivity. }
  cbn [app EventLoop.tasks EventLoop.free]. split_ands.
  - rewrite count_app, count_not_started by reflexivity.
    rewrite count_entered.
    + rewrite length_take. lia.
    + apply Forall_take. eapply Forall_impl; [exact Hbegin|].
      intros es (url & rest & -> & Hurl). exact Hurl.
  - reflexivity.
  - intros i [Hlo Hhi]. unfold EventLoop.advance. cbn [EventLoop.tasks].
    assert (Hm : length (map EventLoop.enter (take MAX_TASKS programs))
                 = MAX_TASKS).
    { rewrite length_map, length_take. lia. }
    rewrite lookup_app_r by lia. rewrite Hm.
    change (map (EventLoop.mkTask []) (drop MAX_TASKS programs))
      with (EventLoop.mkTask [] <$> drop MAX_TASKS programs).
    rewrite list_lookup_fmap, lookup_drop.
    destruct (programs !! (MAX_TASKS + (i - MAX_TASKS))%nat) as [es|] eqn:Hes;
      [|reflexivity].
    rewrite Forall_lookup in Hbegin.
    destruct (Hbegin _ _ Hes) as (url & rest & -> & _). reflexivity.
Qed.

(** A round of searches, however many: the event loop lets them all request
    their search, and no slot is taken. *)
Lemma search_burst_unbounded
    (calls : list (string * string * string * string * world)) :
  exists s,
    EventLoop.advances (EventLoop.burst 0 (length calls))
      (EventLoop.start (search_programs utc_offset calls)) = Some s /\
    EventLoop.count EventLoop.in_search_fetch (EventLoop.tasks s)
    = length calls /\
    EventLoop.free s = MAX_TASKS.
Proof.
  pose proof (search_programs_begin calls) as Hbegin.
  assert (Hlen : length (search_programs utc_offset calls) = length calls).
  { unfold search_programs. apply length_map. }
  set (programs := search_programs utc_offset calls) in *.
  eexists. split.
  { unfold EventLoop.start.
    pose proof (burst_enters 0 (length calls) [] programs MAX_TASKS) as H.
    rewrite Nat.mul_0_r in H. apply H; [lia|].
    apply Forall_take. eapply Forall_impl; [exact Hbegin|].
    intros es (a & b & c & d & ->). eexists _, _, _.
    split; [reflexivity|]. intros x. reflexivity. }
  cbn [app EventLoop.tasks EventLoop.free]. split; [|reflexivity].
  rewrite count_app, count_not_started by reflexivity.
  rewrite count_entered.
  - rewrite length_take. lia.
  - apply Forall_take. eapply Forall_impl; [exact Hbegin|].
    intros es (a & b & c & d & ->).
    unfold EventLoop.in_search_fetch, EventLoop.awaits. cbn.
    now rewrite is_check_url_search.
Qed.

(** C7. The fetch of a check is made inside [async with self.semaphore]: in
    the events of [check_flight], whatever the answers, a request is made
    with a slot held when it is the request of a check, and with none when it
    is the request of the search that follows an invalid flight; and
    [search_flight] makes its request without taking a slot. Hence, under the
    event loop, however many tasks of the crawler run and in whatever order
    they are resumed: the tasks awaiting the answer to a check are at most
    [MAX_TASKS], each of them holds a slot, the free slots and the slots held
    make [MAX_TASKS], and a task awaiting the answer to a search holds none.
    A burst of [MAX_TASKS] checks or more reaches the bound, the other checks
    waiting for a slot; and any number of searches await their answers at the
    same time, all slots free. *)
Theorem limiter_bounds_check_fetches :
  (forall (token a b c d : string),
     is_check_url (CHECK_FLIGHT_URL token) = true /\
     is_check_url (SEARCH_FLIGHT_URL a b c d) = false) /\
  (forall (r : nat) (w : world) (made : list event) (url : string)
          (rest : list event),
     events_of (check_flight utc_offset r) w = made ++ EvRequest url :: rest ->
     held_after false made = is_check_url url) /\
  (forall (a b c d : string) (w : world),
     events_of (search_flight utc_offset a b c d) w
     = [EvSearch a b c d; EvRequest (SEARCH_FLIGHT_URL a b c d)]) /\
  (forall (programs : list (list event)) (schedule : list nat)
          (s : EventLoop.state),
     Forall (crawler_program utc_offset) programs ->
     EventLoop.advances schedule (EventLoop.start programs) = Some s ->
     (EventLoop.count EventLoop.in_check_fetch (EventLoop.tasks s)
      <= MAX_TASKS)%nat /\
     (EventLoop.free s + EventLoop.count EventLoop.holds_slot (EventLoop.tasks s)
      = MAX_TASKS)%nat /\
     Forall (fun p => EventLoop.in_check_fetch p = true ->
                      EventLoop.holds_slot p = true) (EventLoop.tasks s) /\
     Forall (fun p => EventLoop.in_search_fetch p = true ->
                      EventLoop.holds_slot p = false) (EventLoop.tasks s)) /\
  (forall jobs : list (nat * world),
     Forall (fun job => is_Some (heap (snd job) !! fst job)) jobs ->
     (MAX_TASKS <= length jobs)%nat ->
     exists s,
       EventLoop.advances (EventLoop.burst 0 MAX_TASKS)
         (EventLoop.start (check_programs utc_offset jobs)) = Some s /\
       EventLoop.count EventLoop.in_check_fetch (EventLoop.tasks s)
       = MAX_TASKS /\
       EventLoop.free s = 0%nat /\
       forall i, (MAX_TASKS <= i < length jobs)%nat ->
                 EventLoop.advance i s = None) /\
  (forall calls : list (string * string * string * string * world),
     exists s,
       EventLoop.advances (EventLoop.burst 0 (length calls))
         (EventLoop.start (search_programs utc_offset calls)) = Some s /\
       EventLoop.count EventLoop.in_search_fetch (EventLoop.tasks s)
       = length calls /\
       EventLoop.free s = MAX_TASKS).
Proof.
  split_ands.
  - intros token a b c d. split; reflexivity.
  - intros r w made url rest Hev.
    pose proof (check_flight_guarded r w) as Hg.
    rewrite Hev, guarded_app in Hg.
    apply andb_true_iff in Hg as [_ Hg]. cbn [guarded] in Hg.
    apply andb_true_iff in Hg as [Hg _].
    symmetry. now apply Bool.eqb_prop.
  - apply search_flight_events.
  - intros programs schedule s Hall Hs.
    assert (Hguarded : Forall (fun es => guarded false es = true) programs).
    { eapply Forall_impl; [exact Hall|]. apply crawler_program_guarded. }
    destruct (advances_slots programs schedule Hguarded _ s
                (start_programs programs) Hs) as [Hp Hslots].
    rewrite start_holders in Hslots. cbn [EventLoop.start EventLoop.free] in Hslots.
    rewrite <- Hp in Hguarded. apply Forall_map in Hguarded.
    assert (Hin : Forall (fun p => EventLoop.in_check_fetch p = true ->
                                   EventLoop.holds_slot p = true)
                         (EventLoop.tasks s)).
    { eapply Forall_impl; [exact Hguarded|]. apply in_check_fetch_holds. }
    split_ands.
    + pose proof (count_le _ _ _ Hin). lia.
    + lia.
    + exact Hin.
    + eapply Forall_impl; [exact Hguarded|]. apply in_search_fetch_free.
  - apply check_burst_saturates.
  - apply search_burst_unbounded.
Qed.


End MoreCrawlerProperties.

(** An invalid stored flight at 50 is replaced by the candidate at 100 that
    a search returns for its key. *)
Lemma search_flight_upsert_rule_witness :
  stored (fst (search_flight 0 "ALA" "TSE" "03/11/2026" "03/12/2026"
                 (Sample.holding (set_is_valid false (set_price 50 Sample.flight))
                                 [Sample.body [Sample.ala_tse]])))
         "ALA-TSE-02/11/2026"
  = Some (mkFlight true "tok-1" "ALA" "TSE" 100
                   (mkDatetime (mkDate 2026 11 2) 6 13 20)
                   (mkDatetime (mkDate 2026 11 2) 8 13 20)).
Proof.
  destruct (search_flight_upsert_rule 0 "ALA" "TSE" "03/11/2026" "03/12/2026"
              (Sample.holding (set_is_valid false (set_price 50 Sample.flight))
                              [Sample.body [Sample.ala_tse]])
              (JObj [("data", JArr [Sample.ala_tse])]) [] Sample.ala_tse
              [] Sample.flight [] eq_refl eq_refl eq_refl eq_refl)
    as (_ & _ & _ & Hinvalid & _).
  apply (Hinvalid (set_is_valid false (set_price 50 Sample.flight)));
    reflexivity.
Defined.

(** ** The further statements on sample data *)

(** A response whose second entry is [null]: the first entry is stored, the
    third is not, and the search raises [TypeError]. *)
Lemma search_flight_stops_at_bad_entry_witness :
  map fst (flights (fst (search_flight 0 "ALA" "TSE" "01/11/2026" "01/12/2026"
     (mkWorld [] [] "" ""
        [Sample.body [Sample.ala_tse; JNull; Sample.tse_ala]] [] ""))))
  = ["ALA-TSE-02/11/2026"] /\
  snd (search_flight 0 "ALA" "TSE" "01/11/2026" "01/12/2026"
     (mkWorld [] [] "" ""
        [Sample.body [Sample.ala_tse; JNull; Sample.tse_ala]] [] ""))
  = Raise TypeError.
Proof.
  rewrite (search_flight_stops_at_bad_entry 0
             "ALA" "TSE" "01/11/2026" "01/12/2026"
             (mkWorld [] [] "" ""
                [Sample.body [Sample.ala_tse; JNull; Sample.tse_ala]] [] "")
             (JObj [("data", JArr [Sample.ala_tse; JNull; Sample.tse_ala])])
             [Sample.ala_tse] JNull [Sample.tse_ala] [Sample.flight] TypeError []
             eq_refl eq_refl eq_refl eq_refl).
  split; reflexivity.
Defined.

Lemma live_holding (f : Flight) (exchanges : list fetch_outcome) :
  live (Sample.holding f exchanges).
Proof. constructor; [cbn; lia|constructor]. Qed.

(** A stored flight at 100 and offers at 95 and 90: the offer at 90 is
    kept. *)
Lemma search_flight_keeps_cheapest_witness :
  exists f,
    stored (fst (search_flight 0 "ALA" "TSE" "01/11/2026" "01/12/2026"
                   (Sample.holding Sample.flight
                      [Sample.body [Offers.at_95; Offers.at_90]])))
           Offers.key = Some f /\
    price f <= 90.
Proof.
  destruct (search_flight_keeps_cheapest 0 "ALA" "TSE" "01/11/2026" "01/12/2026"
              (Sample.holding Sample.flight
                 [Sample.body [Offers.at_95; Offers.at_90]])
              (JObj [("data", JArr [Offers.at_95; Offers.at_90])])
              [Offers.at_95; Offers.at_90] [Offers.flight_95; Offers.flight_90]
              [] Offers.key
              (live_holding _ _) eq_refl eq_refl eq_refl)
    as (_ & _ & Hsome).
  destruct Hsome as (f & Hf & _ & Hmin & _); [discriminate|].
  exists f. split; [exact Hf|].
  apply (Hmin Offers.flight_90).
  apply list_elem_of_further, list_elem_of_here.
Defined.

(** A dict with one flight under its key, checked with a price change. *)
Lemma check_pass_keeps_consistency_witness :
  consistent (fst (check_pass 0
     (Sample.holding Sample.flight [FetchBody Sample.price_changed]))).
Proof.
  apply (check_pass_keeps_consistency 0).
  split.
  - apply NoDup_singleton.
  - constructor; [|constructor]. exists Sample.flight. split; reflexivity.
Defined.

(** The pass of 01/11/2026. *)
Lemma search_pass_searches_every_direction_witness :
  get_date_range (mkDate 2026 11 1) = Ok ("01/11/2026", "01/12/2026") /\
  length (requests (trace (fst (search_pass 0 (mkDate 2026 11 1)
                                  Sample.one_failure)))) = 10%nat.
Proof.
  split; [reflexivity|].
  destruct (search_pass_searches_every_direction 0 (mkDate 2026 11 1)
              Sample.one_failure "01/11/2026" "01/12/2026" eq_refl)
    as (_ & Hrequests & _).
  cbv zeta in Hrequests. rewrite Hrequests. reflexivity.
Defined.

(** The pass of 31/10/2026: November has 30 days. *)
Lemma search_pass_on_missing_day_witness :
  search_pass 0 (mkDate 2026 10 31) (Sample.holding Sample.flight [])
  = (with_flights [] (Sample.holding Sample.flight []), Raise ValueError).
Proof.
  apply (search_pass_on_missing_day 0 (mkDate 2026 10 31)).
  reflexivity.
Defined.

(** Two unchecked answers, then a checked one: sleeps of 10 and 20
    seconds. *)
Lemma check_flight_backoff_witness :
  sleeps (trace (fst (check_flight 0 0
     (Sample.holding Sample.flight
        [Sample.not_checked; Sample.not_checked; FetchBody Sample.still_valid]))))
  = [10; 20].
Proof.
  destruct (check_flight_backoff 0
              (Sample.holding Sample.flight
                 [Sample.not_checked; Sample.not_checked;
                  FetchBody Sample.still_valid])
              0 Sample.flight [Sample.not_checked; Sample.not_checked]
              Sample.still_valid [] eq_refl eq_refl eq_refl eq_refl)
    as (_ & Hsleeps & _).
  exact Hsleeps.
Defined.

(** The flight at 100 is marked invalid, and the search that follows offers
    95 and 90. *)
Lemma check_flight_replaces_invalid_witness :
  exists g,
    stored (fst (check_flight 0 0
                   (Sample.holding Sample.flight
                      [FetchBody Offers.invalid;
                       Sample.body [Offers.at_95; Offers.at_90]])))
           Offers.key = Some g /\
    is_valid g = true /\ price g <= 90.
Proof.
  destruct (check_flight_replaces_invalid 0
              (Sample.holding Sample.flight
                 [FetchBody Offers.invalid;
                  Sample.body [Offers.at_95; Offers.at_90]])
              0 Sample.flight [] Offers.invalid (JBool true)
              (JObj [("data", JArr [Offers.at_95; Offers.at_90])])
              [Offers.at_95; Offers.at_90] [Offers.flight_95; Offers.flight_90] []
              (live_holding _ _) eq_refl eq_refl eq_refl eq_refl eq_refl eq_refl
              eq_refl eq_refl eq_refl)
    as (_ & _ & _ & Hsome).
  destruct Hsome as (g & Hg & Hvalid & _ & Hmin); [discriminate|].
  exists g. split_ands; auto.
  apply (Hmin Offers.flight_90).
  apply list_elem_of_further, list_elem_of_here.
Defined.

(** Two flights of one route and one day have one key. *)
Lemma flight_key_injective_witness :
  flight_key Offers.flight_90 = flight_key Offers.flight_95 /\
  dep_date Offers.flight_90 = dep_date Offers.flight_95.
Proof.
  split; [reflexivity|].
  destruct (flight_key_injective Offers.flight_90 Offers.flight_95
              eq_refl eq_refl eq_refl eq_refl eq_refl) as (_ & _ & Hdate).
  exact Hdate.
Defined.

(** One flight, still valid at the same price. *)
Lemma check_pass_nothing_new_witness :
  check_pass 0 (Sample.holding Sample.flight [FetchBody Sample.still_valid])
  = (fst (check_pass 0 (Sample.holding Sample.flight
                          [FetchBody Sample.still_valid])), Ok tt) /\
  output_file (fst (check_pass 0 (Sample.holding Sample.flight
                                    [FetchBody Sample.still_valid])))
  = Sample.line "ALA" "TSE" "100".
Proof.
  destruct (check_pass_nothing_new 0
              (Sample.holding Sample.flight [FetchBody Sample.still_valid])
              [Sample.still_valid] [] (live_holding _ _) eq_refl eq_refl eq_refl)
    as (Hok & _ & _ & _ & Hfile & _).
  split.
  - rewrite <- Hok. now destruct (check_pass 0 _).
  - rewrite Hfile. reflexivity.
Defined.

(** A burst of 31 checks: 30 of them request their check, no slot is left,
    and the last one waits. *)
Lemma limiter_bounds_check_fetches_witness :
  exists s,
    EventLoop.advances (EventLoop.burst 0 30)
      (EventLoop.start
         (check_programs 0
            (replicate 31 (0%nat, Sample.holding Sample.flight []))))
    = Some s /\
    EventLoop.count EventLoop.in_check_fetch (EventLoop.tasks s) = 30%nat /\
    EventLoop.free s = 0%nat /\
    EventLoop.advance 30 s = None.
Proof.
  destruct (limiter_bounds_check_fetches 0) as (_ & _ & _ & _ & Hburst & _).
  destruct (Hburst (replicate 31 (0%nat, Sample.holding Sample.flight [])))
    as (s & Hs & Hcount & Hfree & Hwait).
  - apply Forall_replicate. now exists Sample.flight.
  - rewrite length_replicate. unfold MAX_TASKS. lia.
  - exists s. split_ands; [exact Hs|exact Hcount|exact Hfree|].
    apply Hwait. rewrite length_replicate. unfold MAX_TASKS. lia.
Defined.
